(** * MPC: the NLP formulator [FG_eval] and the solve driver [MPC::Solve]

    A shallow embedding of [src/MPC.cpp].

    - [size_t] values are integers in [Z] with the 64-bit wrap-around of
      every [+], [-] and [*] written out.
    - [double] and [AD<double>] values are elements of a scalar interface
      [Scalar]; the formulator is written once against that interface, the
      way the C++ is written once against CppAD's overloaded operators.
      Two instances are used: the real numbers (the mathematical reading
      of the model equations) and an operation tape (the expression that
      CppAD records), on which the divisions can be inspected.
    - [CppAD::vector] and [Eigen::VectorXd] are lists; an index outside the
      vector is undefined behaviour in the C++ and the error [None] here.
    - The interior-point solver is external: it is a parameter of [Solve]. *)

From Stdlib Require Import ZArith Lia QArith Reals Lra Ascii String.
From stdpp Require Import base option list list_numbers strings.

Local Open Scope Z_scope.

(** ** [size_t] arithmetic *)

Definition size_t_bits : Z := 64.
Definition wrap (z : Z) : Z := z mod 2 ^ size_t_bits.

Definition sz_add (a b : Z) : Z := wrap (a + b).
Definition sz_sub (a b : Z) : Z := wrap (a - b).
Definition sz_mul (a b : Z) : Z := wrap (a * b).

Declare Scope size_t_scope.
Delimit Scope size_t_scope with sz.
Infix "+!" := sz_add (at level 50, left associativity) : size_t_scope.
Infix "-!" := sz_sub (at level 50, left associativity) : size_t_scope.
Infix "*!" := sz_mul (at level 40, left associativity) : size_t_scope.
Local Open Scope size_t_scope.

(** ** The scalar interface

    The operations the source applies to [double] and [AD<double>] values.
    [of_int] is the implicit conversion of an [int], [lit] a decimal
    floating literal, [M_PI] the constant of [<cmath>]. *)

Class Scalar (T : Type) := {
  of_int : Z -> T;
  lit : Q -> T;
  M_PI : T;
  sadd : T -> T -> T;
  ssub : T -> T -> T;
  smul : T -> T -> T;
  sdiv : T -> T -> T;
  sneg : T -> T;
  spow : T -> Z -> T;
  ssin : T -> T;
  scos : T -> T;
  satan : T -> T
}.

Declare Scope scalar_scope.
Delimit Scope scalar_scope with S.
Infix "+" := sadd : scalar_scope.
Infix "-" := ssub : scalar_scope.
Infix "*" := smul : scalar_scope.
Infix "/" := sdiv : scalar_scope.
Notation "- x" := (sneg x) : scalar_scope.

(** ** Vectors with checked indexing *)

Section Vectors.
Context {T : Type}.

(** [v[i]] as an rvalue. *)
Definition vget (v : list T) (i : Z) : option T :=
  if decide (0 <= i) then v !! Z.to_nat i else None.

(** [v[i] = x]. *)
Definition vset (v : list T) (i : Z) (x : T) : option (list T) :=
  if decide (0 <= i < Z.of_nat (length v)) then Some (<[Z.to_nat i := x]> v)
  else None.

(** [Dvector v(n)] followed by a loop that fills it with [x]. *)
Definition vfill (n : Z) (x : T) : list T := replicate (Z.to_nat n) x.
End Vectors.

(** ** Counted loops

    [for (size_t i = lo; i < hi; i++) body], threading the state [s] and
    stopping at the first error. *)

Fixpoint for_loop {S : Type} (n : nat) (i : Z)
    (body : Z -> S -> option S) (s : S) : option S :=
  match n with
  | O => Some s
  | Datatypes.S n' => s' ← body i s; for_loop n' (i +! 1) body s'
  end.

Definition for_range {S : Type} (lo hi : Z)
    (body : Z -> S -> option S) (s : S) : option S :=
  for_loop (Z.to_nat (hi - lo)) lo body s.

(** ** Global constants of [MPC.cpp] *)

Definition cost_cte_factor : Z := 3000.
Definition cost_epsi_factor : Z := 500.
Definition cost_v_factor : Z := 1.
Definition cost_current_delta_factor : Z := 1.
Definition cost_diff_delta_factor : Z := 200.
Definition cost_current_a_factor : Z := 1.
Definition cost_diff_a_factor : Z := 1.

(** The horizon of the source, [const size_t N = 15].  The definitions
    below take the horizon as a parameter [N]. *)
Definition N_source : Z := 15.

Section Layout.
Variable N : Z.

Definition x_start : Z := 0.
Definition y_start : Z := x_start +! N.
Definition psi_start : Z := y_start +! N.
Definition v_start : Z := psi_start +! N.
Definition cte_start : Z := v_start +! N.
Definition epsi_start : Z := cte_start +! N.
Definition delta_start : Z := epsi_start +! N.
Definition a_start : Z := delta_start +! N -! 1.

(** [size_t n_vars = 6 * N + 2 * (N - 1)] and
    [size_t n_constraints = 6 * N] of [MPC::Solve]. *)
Definition n_vars : Z := 6 *! N +! 2 *! (N -! 1).
Definition n_constraints : Z := 6 *! N.
End Layout.

(** ** [FG_eval::operator()] *)

Section Formulator.
Context {T : Type} `{Scalar T}.
Variable N : Z.
Local Open Scope scalar_scope.

Definition dt : T := lit 0.1.
Definition Lf : T := lit 2.67.
Definition ref_cte : T := of_int 0.
Definition ref_epsi : T := of_int 0.
Definition ref_v : T := of_int 40.

(** [fg[i] += x]. *)
Definition vadd (fg : list T) (i : Z) (x : T) : option (list T) :=
  old ← vget fg i; vset fg i (old + x).

(** Body of the loop of lines 80-84. *)
Definition cost_reference (vars : list T) (i : Z) (fg : list T)
    : option (list T) :=
  cte ← vget vars (cte_start N +! i);
  fg ← vadd fg 0 (of_int cost_cte_factor * spow (cte - ref_cte) 2);
  epsi ← vget vars (epsi_start N +! i);
  fg ← vadd fg 0 (of_int cost_epsi_factor * spow (epsi - ref_epsi) 2);
  v ← vget vars (v_start N +! i);
  vadd fg 0 (of_int cost_v_factor * spow (v - ref_v) 2).

(** Body of the loop of lines 87-90. *)
Definition cost_actuators (vars : list T) (i : Z) (fg : list T)
    : option (list T) :=
  delta ← vget vars (delta_start N +! i);
  fg ← vadd fg 0 (of_int cost_current_delta_factor * spow delta 2);
  a ← vget vars (a_start N +! i);
  vadd fg 0 (of_int cost_current_a_factor * spow a 2).

(** Body of the loop of lines 93-96. *)
Definition cost_gaps (vars : list T) (i : Z) (fg : list T)
    : option (list T) :=
  delta1 ← vget vars (delta_start N +! i +! 1);
  delta0 ← vget vars (delta_start N +! i);
  fg ← vadd fg 0 (of_int cost_diff_delta_factor * spow (delta1 - delta0) 2);
  a1 ← vget vars (a_start N +! i +! 1);
  a0 ← vget vars (a_start N +! i);
  vadd fg 0 (of_int cost_diff_a_factor * spow (a1 - a0) 2).

(** [fg[1 + s] = vars[s]], lines 104-109. *)
Definition init_constraint (vars : list T) (s : Z) (fg : list T)
    : option (list T) :=
  x ← vget vars s; vset fg (1 +! s) x.

(** Body of the loop of lines 113-154. *)
Definition constraint_step (coeffs vars : list T) (i : Z) (fg : list T)
    : option (list T) :=
  x1 ← vget vars (x_start +! i +! 1);
  y1 ← vget vars (y_start N +! i +! 1);
  psi1 ← vget vars (psi_start N +! i +! 1);
  v1 ← vget vars (v_start N +! i +! 1);
  cte1 ← vget vars (cte_start N +! i +! 1);
  epsi1 ← vget vars (epsi_start N +! i +! 1);
  x0 ← vget vars (x_start +! i);
  y0 ← vget vars (y_start N +! i);
  psi0 ← vget vars (psi_start N +! i);
  v0 ← vget vars (v_start N +! i);
  cte0 ← vget vars (cte_start N +! i);
  epsi0 ← vget vars (epsi_start N +! i);
  delta0 ← vget vars (delta_start N +! i);
  a0 ← vget vars (a_start N +! i);
  c0 ← vget coeffs 0;
  c1 ← vget coeffs 1;
  c2 ← vget coeffs 2;
  c3 ← vget coeffs 3;
  let f0 := c0 + c1 * x0 + c2 * spow x0 2 + c3 * spow x0 3 in
  let psides0 :=
    satan (c1 + (of_int 2 * c2 * x0) + (of_int 3 * c3 * spow x0 2)) in
  fg ← vset fg (2 +! x_start +! i) (x1 - (x0 + v0 * scos psi0 * dt));
  fg ← vset fg (2 +! y_start N +! i) (y1 - (y0 + v0 * ssin psi0 * dt));
  fg ← vset fg (2 +! psi_start N +! i) (psi1 - (psi0 - v0 * delta0 / Lf * dt));
  fg ← vset fg (2 +! v_start N +! i) (v1 - (v0 + a0 * dt));
  fg ← vset fg (2 +! cte_start N +! i)
         (cte1 - ((f0 - y0) + (v0 * ssin epsi0 * dt)));
  vset fg (2 +! epsi_start N +! i)
         (epsi1 - ((psi0 - psides0) - v0 * delta0 / Lf * dt)).

Definition fg_eval (coeffs fg vars : list T) : option (list T) :=
  fg ← vset fg 0 (of_int 0);
  fg ← for_range 0 N (cost_reference vars) fg;
  fg ← for_range 0 (N -! 1) (cost_actuators vars) fg;
  fg ← for_range 0 (N -! 2) (cost_gaps vars) fg;
  fg ← init_constraint vars x_start fg;
  fg ← init_constraint vars (y_start N) fg;
  fg ← init_constraint vars (psi_start N) fg;
  fg ← init_constraint vars (v_start N) fg;
  fg ← init_constraint vars (cte_start N) fg;
  fg ← init_constraint vars (epsi_start N) fg;
  for_range 0 (N -! 1) (constraint_step coeffs vars) fg.
End Formulator.

(** ** [MPC::Solve] *)

(** The status and the fields of [CppAD::ipopt::solve_result] that the
    driver reads.  The library's header is not part of the repository: the
    driver only tells [success] from every other status. *)
Inductive status_type : Type :=
  | success
  | not_success (code : Z).

Global Instance status_type_eq_dec : EqDecision status_type.
Proof. solve_decision. Defined.

Record solve_result (T : Type) : Type := mk_solve_result {
  status : status_type;
  sol_x : list T;
  obj_value : T
}.
Arguments mk_solve_result {T}.
Arguments status {T}.
Arguments sol_x {T}.
Arguments obj_value {T}.

(** The NLP description handed to the solver. *)
Record nlp (T : Type) : Type := mk_nlp {
  nlp_vars : list T;
  vars_lowerbound : list T;
  vars_upperbound : list T;
  constraints_lowerbound : list T;
  constraints_upperbound : list T
}.
Arguments mk_nlp {T}.
Arguments nlp_vars {T}.
Arguments vars_lowerbound {T}.
Arguments vars_upperbound {T}.
Arguments constraints_lowerbound {T}.
Arguments constraints_upperbound {T}.

(** What a call of [Solve] leaves behind: the cost written to [std::cout]
    and the returned [vector<double>]. *)
Record solve_run (T : Type) : Type := mk_solve_run {
  printed_cost : T;
  result : list T
}.
Arguments mk_solve_run {T}.
Arguments printed_cost {T}.
Arguments result {T}.

Definition newline : string := String "010"%char EmptyString.

(** The option text of lines 256-268. *)
Definition options : string :=
  "Integer print_level  0" +:+ newline +:+
  "Sparse  true        forward" +:+ newline +:+
  "Sparse  true        reverse" +:+ newline +:+
  "Numeric max_cpu_time          0.5" +:+ newline.

(** The type of [CppAD::ipopt::solve]: options, [xi], [xl], [xu], [gl],
    [gu], the evaluator, and the solution it fills in. *)
Definition solver (T : Type) : Type :=
  string -> list T -> list T -> list T -> list T -> list T ->
  (list T -> list T -> option (list T)) -> solve_result T.

Section Driver.
Context {T : Type} `{Scalar T}.
Variable N : Z.
(** Content of a [Dvector] element before its first assignment. *)
Variable uninit : T.
Local Open Scope scalar_scope.

(** Two vectors assigned at the same index in one loop body:
    [v1[i] = a; v2[i] = b]. *)
Definition assign_both (a b : T) (i : Z) (p : list T * list T)
    : option (list T * list T) :=
  v1 ← vset p.1 i a; v2 ← vset p.2 i b; Some (v1, v2).

(** Lines 177-247: everything [Solve] prepares before it calls the
    solver. *)
Definition Solve_problem (state : list T) : option (nlp T) :=
  let n_vars := n_vars N in
  let n_constraints := n_constraints N in
  vars ← for_range 0 n_vars (fun i v => vset v i (lit 0.0))
           (vfill n_vars uninit);
  x ← vget state 0;
  y ← vget state 1;
  psi ← vget state 2;
  v ← vget state 3;
  cte ← vget state 4;
  epsi ← vget state 5;
  vars ← vset vars x_start x;
  vars ← vset vars (y_start N) y;
  vars ← vset vars (psi_start N) psi;
  vars ← vset vars (v_start N) v;
  vars ← vset vars (cte_start N) cte;
  vars ← vset vars (epsi_start N) epsi;
  b ← for_range 0 (delta_start N)
        (assign_both (lit 1.0e19) (- lit 1.0e19))
        (vfill n_vars uninit, vfill n_vars uninit);
  b ← for_range (delta_start N) (a_start N)
        (assign_both (M_PI / of_int 8) (- M_PI / of_int 8)) b;
  b ← for_range (a_start N) n_vars
        (assign_both (lit 1.0) (- lit 1.0)) b;
  c ← for_range 0 n_constraints
        (assign_both (of_int 0) (of_int 0))
        (vfill n_constraints uninit, vfill n_constraints uninit);
  lo ← vset c.1 x_start x;
  lo ← vset lo (y_start N) y;
  lo ← vset lo (psi_start N) psi;
  lo ← vset lo (v_start N) v;
  lo ← vset lo (cte_start N) cte;
  lo ← vset lo (epsi_start N) epsi;
  up ← vset c.2 x_start x;
  up ← vset up (y_start N) y;
  up ← vset up (psi_start N) psi;
  up ← vset up (v_start N) v;
  up ← vset up (cte_start N) cte;
  up ← vset up (epsi_start N) epsi;
  Some (mk_nlp vars b.2 b.1 lo up).

(** Body of the loop of lines 299-303. *)
Definition push_xy (x : list T) (i : Z) (result : list T)
    : option (list T) :=
  px ← vget x (x_start +! i +! 1);
  py ← vget x (y_start N +! i +! 1);
  Some (result ++ [px] ++ [py]).

(** Lines 294-304. *)
Definition Solve_result (x : list T) : option (list T) :=
  d ← vget x (delta_start N);
  a ← vget x (a_start N);
  for_range 0 (N -! 1) (push_xy x) ([] ++ [d] ++ [a]).

(** Lines 250-277: the evaluator is built from [coeffs] and the solver
    is called on the prepared problem. *)
Definition Solve_call (ipopt_solve : solver T) (coeffs : list T) (p : nlp T)
    : solve_result T :=
  let fg_eval := fg_eval N coeffs in
  ipopt_solve options (nlp_vars p) (vars_lowerbound p)
    (vars_upperbound p) (constraints_lowerbound p)
    (constraints_upperbound p) fg_eval.

Definition Solve (ipopt_solve : solver T) (state coeffs : list T)
    : option (solve_run T) :=
  p ← Solve_problem state;
  let solution := Solve_call ipopt_solve coeffs p in
  let ok := true && bool_decide (status solution = success) in
  let cost := obj_value solution in
  r ← Solve_result (sol_x solution);
  Some (mk_solve_run cost r).
End Driver.

(** ** Instances of the scalar interface *)

(** The real numbers: the mathematical reading of the model. *)
#[global] Instance R_scalar : Scalar R := {|
  of_int := IZR;
  lit := Q2R;
  M_PI := PI;
  sadd := Rplus;
  ssub := Rminus;
  smul := Rmult;
  sdiv := Rdiv;
  sneg := Ropp;
  spow := powerRZ;
  ssin := sin;
  scos := cos;
  satan := atan
|}.

(** The operation tape: each overloaded operator records the operation it
    stands for, as CppAD does for [AD<double>]. *)
Inductive expr : Type :=
  | EVar (i : Z)
  | EInt (z : Z)
  | ELit (q : Q)
  | EPi
  | EAdd (a b : expr)
  | ESub (a b : expr)
  | EMul (a b : expr)
  | EDiv (a b : expr)
  | ENeg (a : expr)
  | EPow (a : expr) (n : Z)
  | ESin (a : expr)
  | ECos (a : expr)
  | EAtan (a : expr).

#[global] Instance expr_scalar : Scalar expr := {|
  of_int := EInt;
  lit := ELit;
  M_PI := EPi;
  sadd := EAdd;
  ssub := ESub;
  smul := EMul;
  sdiv := EDiv;
  sneg := ENeg;
  spow := EPow;
  ssin := ESin;
  scos := ECos;
  satan := EAtan
|}.

(** The divisors of the divisions recorded in an expression. *)
Fixpoint divisors (e : expr) : list expr :=
  match e with
  | EVar _ | EInt _ | ELit _ | EPi => []
  | EAdd a b | ESub a b | EMul a b => divisors a ++ divisors b
  | EDiv a b => b :: divisors a ++ divisors b
  | ENeg a | EPow a _ | ESin a | ECos a | EAtan a => divisors a
  end.

(** Value of a recorded expression at an assignment of the independent
    variables; a division by zero has no value. *)
Fixpoint denote (env : Z -> R) (e : expr) : option R :=
  match e with
  | EVar i => Some (env i)
  | EInt z => Some (IZR z)
  | ELit q => Some (Q2R q)
  | EPi => Some PI
  | EAdd a b => x ← denote env a; y ← denote env b; Some (x + y)%R
  | ESub a b => x ← denote env a; y ← denote env b; Some (x - y)%R
  | EMul a b => x ← denote env a; y ← denote env b; Some (x * y)%R
  | EDiv a b =>
      x ← denote env a; y ← denote env b;
      if Req_dec_T y 0 then None else Some (x / y)%R
  | ENeg a => x ← denote env a; Some (- x)%R
  | EPow a n => x ← denote env a; Some (powerRZ x n)
  | ESin a => x ← denote env a; Some (sin x)
  | ECos a => x ← denote env a; Some (cos x)
  | EAtan a => x ← denote env a; Some (atan x)
  end.

(** The independent variables [vars[0] .. vars[n-1]] of a recording. *)
Definition independent (n : Z) : list expr := EVar <$> seqZ 0 n.

(** ** Total reading of a vector, for stating results *)

Definition vat {T : Type} `{Scalar T} (v : list T) (i : Z) : T :=
  default (of_int 0) (vget v i).

Definition vupd {T : Type} (v : list T) (i : Z) (x : T) : list T :=
  <[Z.to_nat i := x]> v.

(** The horizons for which no [size_t] expression of the program wraps. *)
Definition horizon (N : Z) : Prop := 2 <= N /\ 8 * N <= 2 ^ size_t_bits.

(** Vectors of the sizes the solver uses: [vars] has [n_vars] entries and
    [fg] one entry for the cost and one for each constraint. *)
Definition sized {T : Type} (N : Z) (fg vars : list T) : Prop :=
  Z.of_nat (length vars) = n_vars N /\
  Z.of_nat (length fg) = 1 + n_constraints N.


(** ** What the formulator computes, in terms of total readings

    The same operations in the same order as the loop bodies of
    [operator()], with the vector accesses read through [vat]. *)

Section Expected.
Context {T : Type} `{Scalar T}.
Variable N : Z.
Variables coeffs vars : list T.
Local Open Scope scalar_scope.

(** One iteration of each cost loop applied to the running cost [c]. *)
Definition track_step (c : T) (i : Z) : T :=
  c + of_int cost_cte_factor * spow (vat vars (cte_start N + i)%Z - ref_cte) 2
    + of_int cost_epsi_factor * spow (vat vars (epsi_start N + i)%Z - ref_epsi) 2
    + of_int cost_v_factor * spow (vat vars (v_start N + i)%Z - ref_v) 2.

Definition effort_step (c : T) (i : Z) : T :=
  c + of_int cost_current_delta_factor * spow (vat vars (delta_start N + i)%Z) 2
    + of_int cost_current_a_factor * spow (vat vars (a_start N + i)%Z) 2.

Definition smooth_step (c : T) (i : Z) : T :=
  c + of_int cost_diff_delta_factor
        * spow (vat vars (delta_start N + i + 1)%Z
                - vat vars (delta_start N + i)%Z) 2
    + of_int cost_diff_a_factor
        * spow (vat vars (a_start N + i + 1)%Z - vat vars (a_start N + i)%Z) 2.

(** [n] iterations, for [i = 0 .. n-1], starting from [c]. *)
Fixpoint accumulate (step : T -> Z -> T) (n : nat) (c : T) : T :=
  match n with
  | O => c
  | Datatypes.S n' => step (accumulate step n' c) (Z.of_nat n')
  end.

Definition cost : T :=
  accumulate smooth_step (Z.to_nat (N - 2))
    (accumulate effort_step (Z.to_nat (N - 1))
       (accumulate track_step (Z.to_nat N) (of_int 0))).

(** The six values assigned by iteration [i] of the constraint loop. *)
Definition f0 (i : Z) : T :=
  let x0 := vat vars (x_start + i)%Z in
  vat coeffs 0 + vat coeffs 1 * x0 + vat coeffs 2 * spow x0 2
    + vat coeffs 3 * spow x0 3.

Definition psides0 (i : Z) : T :=
  let x0 := vat vars (x_start + i)%Z in
  satan (vat coeffs 1 + (of_int 2 * vat coeffs 2 * x0)
         + (of_int 3 * vat coeffs 3 * spow x0 2)).

Definition res_x (i : Z) : T :=
  vat vars (x_start + i + 1)%Z
  - (vat vars (x_start + i)%Z
     + vat vars (v_start N + i)%Z * scos (vat vars (psi_start N + i)%Z) * dt).

Definition res_y (i : Z) : T :=
  vat vars (y_start N + i + 1)%Z
  - (vat vars (y_start N + i)%Z
     + vat vars (v_start N + i)%Z * ssin (vat vars (psi_start N + i)%Z) * dt).

Definition res_psi (i : Z) : T :=
  vat vars (psi_start N + i + 1)%Z
  - (vat vars (psi_start N + i)%Z
     - vat vars (v_start N + i)%Z * vat vars (delta_start N + i)%Z / Lf * dt).

Definition res_v (i : Z) : T :=
  vat vars (v_start N + i + 1)%Z
  - (vat vars (v_start N + i)%Z + vat vars (a_start N + i)%Z * dt).

Definition res_cte (i : Z) : T :=
  vat vars (cte_start N + i + 1)%Z
  - ((f0 i - vat vars (y_start N + i)%Z)
     + (vat vars (v_start N + i)%Z
        * ssin (vat vars (epsi_start N + i)%Z) * dt)).

Definition res_epsi (i : Z) : T :=
  vat vars (epsi_start N + i + 1)%Z
  - ((vat vars (psi_start N + i)%Z - psides0 i)
     - vat vars (v_start N + i)%Z * vat vars (delta_start N + i)%Z / Lf * dt).
End Expected.

(** The entries of [fg] that hold the cost and the initial state. *)
Definition pinned (N j : Z) : Prop :=
  j = 0 \/ j = 1 + x_start \/ j = 1 + y_start N \/ j = 1 + psi_start N \/
  j = 1 + v_start N \/ j = 1 + cte_start N \/ j = 1 + epsi_start N.

(** All six residuals of iteration [i] are in place in [fg]. *)
Definition residuals_at {T : Type} `{Scalar T} (N : Z) (coeffs vars fg : list T)
    (i : Z) : Prop :=
  vat fg (2 + x_start + i) = res_x N vars i /\
  vat fg (2 + y_start N + i) = res_y N vars i /\
  vat fg (2 + psi_start N + i) = res_psi N vars i /\
  vat fg (2 + v_start N + i) = res_v N vars i /\
  vat fg (2 + cte_start N + i) = res_cte N coeffs vars i /\
  vat fg (2 + epsi_start N + i) = res_epsi N coeffs vars i.

(** The complete content of [fg] after an evaluation. *)
Definition fg_expected {T : Type} `{Scalar T} (N : Z) (coeffs vars fg : list T)
    : Prop :=
  Z.of_nat (length fg) = 1 + n_constraints N /\
  vat fg 0 = cost N vars /\
  (vat fg (1 + x_start) = vat vars x_start /\
   vat fg (1 + y_start N) = vat vars (y_start N) /\
   vat fg (1 + psi_start N) = vat vars (psi_start N) /\
   vat fg (1 + v_start N) = vat vars (v_start N) /\
   vat fg (1 + cte_start N) = vat vars (cte_start N) /\
   vat fg (1 + epsi_start N) = vat vars (epsi_start N)) /\
  forall i, 0 <= i < N - 1 -> residuals_at N coeffs vars fg i.

(** ** The model and the cost in the words of the specification

    Over the real numbers.  [state_x t] is the candidate [x] at timestep
    [t], and so on for the other blocks of the decision vector. *)

Section Specification.
Variable N : Z.
Variables coeffs vars : list R.
Local Open Scope R_scope.

Definition state_x (t : Z) : R := vat vars (x_start + t)%Z.
Definition state_y (t : Z) : R := vat vars (y_start N + t)%Z.
Definition state_psi (t : Z) : R := vat vars (psi_start N + t)%Z.
Definition state_v (t : Z) : R := vat vars (v_start N + t)%Z.
Definition state_cte (t : Z) : R := vat vars (cte_start N + t)%Z.
Definition state_epsi (t : Z) : R := vat vars (epsi_start N + t)%Z.
Definition control_delta (t : Z) : R := vat vars (delta_start N + t)%Z.
Definition control_a (t : Z) : R := vat vars (a_start N + t)%Z.

Definition Lf_spec : R := 2.67.
Definition dt_spec : R := 0.1.

(** The fitted reference path and its heading. *)
Definition path_f (x : R) : R :=
  vat coeffs 0 + vat coeffs 1 * x + vat coeffs 2 * x ^ 2
  + vat coeffs 3 * x ^ 3.

Definition path_psi_des (x : R) : R :=
  atan (vat coeffs 1 + 2 * vat coeffs 2 * x + 3 * vat coeffs 3 * x ^ 2).

(** The state the model predicts for timestep [t + 1]. *)
Definition model_x (t : Z) : R :=
  state_x t + state_v t * cos (state_psi t) * dt_spec.
Definition model_y (t : Z) : R :=
  state_y t + state_v t * sin (state_psi t) * dt_spec.
Definition model_psi (t : Z) : R :=
  state_psi t - (state_v t / Lf_spec) * control_delta t * dt_spec.
Definition model_v (t : Z) : R :=
  state_v t + control_a t * dt_spec.
Definition model_cte (t : Z) : R :=
  (path_f (state_x t) - state_y t) + state_v t * sin (state_epsi t) * dt_spec.
Definition model_epsi (t : Z) : R :=
  (state_psi t - path_psi_des (state_x t))
  - (state_v t / Lf_spec) * control_delta t * dt_spec.

(** Sum of [g 0 .. g (n-1)]. *)
Fixpoint Rsum (n : nat) (g : Z -> R) : R :=
  match n with
  | O => 0
  | Datatypes.S n' => Rsum n' g + g (Z.of_nat n')
  end.

Definition tracking_cost : R :=
  Rsum (Z.to_nat N) (fun i =>
    3000 * (state_cte i - 0) ^ 2 + 500 * (state_epsi i - 0) ^ 2
    + 1 * (state_v i - 40) ^ 2).

Definition effort_cost : R :=
  Rsum (Z.to_nat (N - 1)) (fun i =>
    1 * control_delta i ^ 2 + 1 * control_a i ^ 2).

Definition smoothness_cost : R :=
  Rsum (Z.to_nat (N - 2)) (fun i =>
    200 * (control_delta (i + 1) - control_delta i) ^ 2
    + 1 * (control_a (i + 1) - control_a i) ^ 2).

Definition cost_spec : R := tracking_cost + effort_cost + smoothness_cost.
End Specification.

(** ** Concrete inputs at the horizon of the source *)

Definition sample_coeffs : list R := [1; 2; 3; 4]%R.
Definition sample_vars : list R := vfill (n_vars N_source) 0%R.
Definition sample_fg : list R := vfill (1 + n_constraints N_source) 0%R.
Definition sample_state : list R := [1; 2; 3; 4; 5; 6]%R.

(** ** What the driver prepares *)

(** The component of the current state that a vector index holds: the
    first entry of state block [c] holds component [c]. *)
Definition state_component (N j : Z) : option Z :=
  if decide (j = x_start) then Some 0
  else if decide (j = y_start N) then Some 1
  else if decide (j = psi_start N) then Some 2
  else if decide (j = v_start N) then Some 3
  else if decide (j = cte_start N) then Some 4
  else if decide (j = epsi_start N) then Some 5
  else None.

(** Entry [j] of a vector that is [other] everywhere except at the first
    entry of each state block, where it is the current state. *)
Definition pinned_or {T : Type} `{Scalar T} (N : Z) (state : list T)
    (other : T) (j : Z) : T :=
  match state_component N j with
  | Some c => vat state c
  | None => other
  end.

Section ProblemExpected.
Context {T : Type} `{Scalar T}.
Variable N : Z.
Variables (state : list T) (p : nlp T).
Local Open Scope scalar_scope.

Definition lengths_expected : Prop :=
  Z.of_nat (length (nlp_vars p)) = n_vars N /\
  Z.of_nat (length (vars_lowerbound p)) = n_vars N /\
  Z.of_nat (length (vars_upperbound p)) = n_vars N /\
  Z.of_nat (length (constraints_lowerbound p)) = n_constraints N /\
  Z.of_nat (length (constraints_upperbound p)) = n_constraints N.

Definition initial_point_expected : Prop :=
  forall j, 0 <= j < n_vars N ->
    vat (nlp_vars p) j = pinned_or N state (lit 0.0) j.

Definition variable_bounds_expected : Prop :=
  (forall j, 0 <= j < delta_start N ->
     vat (vars_lowerbound p) j = - lit 1.0e19 /\
     vat (vars_upperbound p) j = lit 1.0e19) /\
  (forall j, delta_start N <= j < a_start N ->
     vat (vars_lowerbound p) j = - M_PI / of_int 8 /\
     vat (vars_upperbound p) j = M_PI / of_int 8) /\
  (forall j, a_start N <= j < n_vars N ->
     vat (vars_lowerbound p) j = - lit 1.0 /\
     vat (vars_upperbound p) j = lit 1.0).

Definition constraint_bounds_expected : Prop :=
  forall j, 0 <= j < n_constraints N ->
    vat (constraints_lowerbound p) j = pinned_or N state (of_int 0) j /\
    vat (constraints_upperbound p) j = pinned_or N state (of_int 0) j.

Definition problem_expected : Prop :=
  lengths_expected /\ initial_point_expected /\
  variable_bounds_expected /\ constraint_bounds_expected.
End ProblemExpected.

(** The reading under which the constraint bounds would be the current
    state at the indices 0 to 5 and zero from index 6 on. *)
Definition first_six_pinned {T : Type} `{Scalar T} (N : Z) (state : list T)
    (p : nlp T) : Prop :=
  forall j, 0 <= j < n_constraints N ->
    vat (constraints_lowerbound p) j
      = (if decide (j < 6) then vat state j else of_int 0) /\
    vat (constraints_upperbound p) j
      = (if decide (j < 6) then vat state j else of_int 0).

(** ** What the driver returns *)

(** The sequence in the words of the specification: the first steering
    and acceleration commands, then the predicted [(x, y)] at the
    timesteps [1 .. N-1]. *)
Definition result_spec {T : Type} `{Scalar T} (N : Z) (x : list T) : list T :=
  [vat x (delta_start N); vat x (a_start N)]
  ++ flat_map (fun i => [vat x (x_start + (i + 1)); vat x (y_start N + (i + 1))])
       (seqZ 0 (N - 1)).

(** A solver stub: it reports [st] and the cost [c], and returns the
    initial point as the solution. *)
Definition stub_solver {T : Type} (st : status_type) (c : T) : solver T :=
  fun _ xi _ _ _ _ _ => mk_solve_result st xi c.

(** The reading under which the caller of [Solve] receives the solver's
    status: the status can be recovered from what [Solve] leaves behind,
    whatever the solver is. *)
Definition status_reaches_caller {T : Type} `{Scalar T} (N : Z) (uninit : T)
    : Prop :=
  exists recover : solve_run T -> status_type,
    forall (ipopt_solve : solver T) (state coeffs : list T) p run,
      Solve_problem N uninit state = Some p ->
      Solve N uninit ipopt_solve state coeffs = Some run ->
      recover run = status (Solve_call N ipopt_solve coeffs p).

(** Concrete inputs on the operation tape. *)
Definition tape_coeffs : list expr := [ELit 1; ELit 2; ELit 3; ELit 4].

(** An expression [e] divides by nothing but [Lf] and has the value [r] at
    the assignment [env]. *)
Definition tape_reading (env : Z -> R) (e : expr) (r : R) : Prop :=
  Forall (fun d => d = Lf) (divisors e) /\ denote env e = Some r.

(** A solver stub that gives up without a solution: it reports a
    non-success status and leaves the solution vector empty. *)
Definition empty_solver {T : Type} (c : T) : solver T :=
  fun _ _ _ _ _ _ _ => mk_solve_result (not_success 1) [] c.

(** ** Candidates that obey the dynamics *)

(** Every residual of the timesteps [1 .. N-1] in [fg] is zero. *)
Definition residuals_zero (N : Z) (fg : list R) : Prop :=
  forall i, 0 <= i < N - 1 ->
    vat fg (2 + x_start + i) = 0%R /\ vat fg (2 + y_start N + i) = 0%R /\
    vat fg (2 + psi_start N + i) = 0%R /\ vat fg (2 + v_start N + i) = 0%R /\
    vat fg (2 + cte_start N + i) = 0%R /\ vat fg (2 + epsi_start N + i) = 0%R.

(** Two candidates have the same six state values at timestep [t]. *)
Definition same_state (N : Z) (v1 v2 : list R) (t : Z) : Prop :=
  state_x v1 t = state_x v2 t /\ state_y N v1 t = state_y N v2 t /\
  state_psi N v1 t = state_psi N v2 t /\ state_v N v1 t = state_v N v2 t /\
  state_cte N v1 t = state_cte N v2 t /\ state_epsi N v1 t = state_epsi N v2 t.

(** Two candidates have the same controls at every timestep. *)
Definition same_controls (N : Z) (v1 v2 : list R) : Prop :=
  forall i, 0 <= i < N - 1 ->
    control_delta N v1 i = control_delta N v2 i /\
    control_a N v1 i = control_a N v2 i.

(** A straight reference path along the x axis and a candidate at rest
    on it. *)
Definition zero_coeffs : list R := [0; 0; 0; 0]%R.
Definition rest_vars : list R := vfill (n_vars N_source) 0%R.

(** The candidate [sample_vars] with [x] at timestep 0 moved to 5. *)
Definition moved_vars : list R := vupd sample_vars 0 5%R.

(** ** Which variables an entry of [fg] depends on *)

(** The independent variables that occur in a recorded expression. *)
Fixpoint variables (e : expr) : list Z :=
  match e with
  | EVar i => [i]
  | EInt _ | ELit _ | EPi => []
  | EAdd a b | ESub a b | EMul a b | EDiv a b => variables a ++ variables b
  | ENeg a | EPow a _ | ESin a | ECos a | EAtan a => variables a
  end.

(** The fourteen entries of [vars] that iteration [i] of the constraint
    loop reads (lines 115-132): the state at [i + 1], the state at [i] and
    the controls at [i]. *)
Definition stencil (N i : Z) : list Z :=
  [x_start + i + 1; y_start N + i + 1; psi_start N + i + 1;
   v_start N + i + 1; cte_start N + i + 1; epsi_start N + i + 1;
   x_start + i; y_start N + i; psi_start N + i; v_start N + i;
   cte_start N + i; epsi_start N + i; delta_start N + i; a_start N + i].

(** Buffers one entry too short: the cost and the [6N] residuals need
    [1 + 6N] entries, the candidate [6N + 2(N-1)]. *)
Definition short_fg : list R := vfill (n_constraints N_source) 0%R.
Definition short_vars : list R := vfill (n_vars N_source - 1) 0%R.

(** ** Solutions that satisfy the constraints *)

(** The constraint values of a candidate, [fg[1 + j]] for constraint [j],
    lie within the bounds handed to the solver. *)
Definition feasible (N : Z) (p : nlp R) (fg : list R) : Prop :=
  forall j, 0 <= j < n_constraints N ->
    (vat (constraints_lowerbound p) j <= vat fg (1 + j)
     <= vat (constraints_upperbound p) j)%R.

(** The vehicle at rest at the origin. *)
Definition rest_state : list R := [0; 0; 0; 0; 0; 0]%R.

(** The candidate's state at timestep 0, the first entry of each of the
    six state blocks, is the given state. *)
Definition starts_at (N : Z) (state vars : list R) : Prop :=
  forall c, 0 <= c < 6 -> vat vars (c * N) = vat state c.

(** The candidate's state at every timestep [1 .. N-1] is the one the
    model predicts from the timestep before. *)
Definition obeys_model (N : Z) (coeffs vars : list R) : Prop :=
  forall i, 0 <= i < N - 1 ->
    state_x vars (i + 1) = model_x N vars i /\
    state_y N vars (i + 1) = model_y N vars i /\
    state_psi N vars (i + 1) = model_psi N vars i /\
    state_v N vars (i + 1) = model_v N vars i /\
    state_cte N vars (i + 1) = model_cte N coeffs vars i /\
    state_epsi N vars (i + 1) = model_epsi N coeffs vars i.

(** A candidate at the reference: every [v] entry is the reference speed
    40, every other entry is 0. *)
Definition cruise_vars : list R :=
  vfill (v_start N_source) 0%R ++ vfill N_source 40%R
  ++ vfill (n_vars N_source - cte_start N_source) 0%R.
(** * Proofs *)

(** ** [size_t] expressions that do not wrap *)

Lemma wrap_small (z : Z) : 0 <= z < 2 ^ 64 -> wrap z = z.
Proof. intros Hz. unfold wrap, size_t_bits. now apply Z.mod_small. Qed.

Lemma sz_add_small (a b : Z) : 0 <= a + b < 2 ^ 64 -> a +! b = a + b.
Proof. apply wrap_small. Qed.

Lemma sz_sub_small (a b : Z) : 0 <= a - b < 2 ^ 64 -> a -! b = a - b.
Proof. apply wrap_small. Qed.

Lemma sz_mul_small (a b : Z) : 0 <= a * b < 2 ^ 64 -> a *! b = a * b.
Proof. apply wrap_small. Qed.

(** With a horizon of 1 the bound [N - 2] of the third cost loop wraps. *)
Example horizon_one_wraps : 1 -! 2 = 2 ^ 64 - 1.
Proof. reflexivity. Qed.

(** Removes, innermost first, every wrap whose argument is in range. *)
Ltac unwrap :=
  repeat match goal with
    | |- context [?a +! ?b] => rewrite (sz_add_small a b) by lia
    | |- context [?a -! ?b] => rewrite (sz_sub_small a b) by lia
    | |- context [?a *! ?b] => rewrite (sz_mul_small a b) by lia
    end.

Ltac unfold_layout :=
  unfold n_vars, n_constraints, a_start, delta_start, epsi_start, cte_start,
    v_start, psi_start, y_start, x_start in *.

(** The block offsets as functions of the horizon. *)
Lemma layout_offsets (N : Z) :
  1 <= N -> 8 * N <= 2 ^ 64 ->
  x_start = 0 /\ y_start N = N /\ psi_start N = 2 * N /\
  v_start N = 3 * N /\ cte_start N = 4 * N /\ epsi_start N = 5 * N /\
  delta_start N = 6 * N /\ a_start N = 7 * N - 1 /\
  n_vars N = 8 * N - 2 /\ n_constraints N = 6 * N.
Proof.
  intros H1 H8. unfold_layout. unwrap. repeat split; lia.
Qed.

Ltac layout N :=
  let HL := fresh "HL" in
  let Hy := fresh in let Hpsi := fresh in let Hv := fresh in
  let Hcte := fresh in let Hepsi := fresh in let Hdelta := fresh in
  let Ha := fresh in let Hnv := fresh in let Hnc := fresh in
  assert (HL : 1 <= N /\ 8 * N <= 2 ^ 64)
    by (unfold horizon, size_t_bits in *; lia);
  destruct (layout_offsets N (proj1 HL) (proj2 HL))
    as (_ & Hy & Hpsi & Hv & Hcte & Hepsi & Hdelta & Ha & Hnv & Hnc);
  unfold x_start in *;
  rewrite ?Hy, ?Hpsi, ?Hv, ?Hcte, ?Hepsi, ?Hdelta, ?Ha, ?Hnv, ?Hnc in *;
  clear Hy Hpsi Hv Hcte Hepsi Hdelta Ha Hnv Hnc.

(** ** Checked and total vector operations agree inside the vector *)

Section VectorFacts.
Context {T : Type} `{Scalar T}.
Implicit Types (v : list T) (i j : Z) (x : T).

Lemma vget_vat v i :
  0 <= i < Z.of_nat (length v) -> vget v i = Some (vat v i).
Proof.
  intros Hi. unfold vat, vget. rewrite decide_True by lia.
  destruct (lookup_lt_is_Some_2 v (Z.to_nat i)) as [x Hx]; [lia|].
  now rewrite Hx.
Qed.

Lemma vget_None v i : Z.of_nat (length v) <= i -> vget v i = None.
Proof.
  intros Hi. unfold vget. rewrite decide_True by lia.
  apply lookup_ge_None_2. lia.
Qed.

Lemma vset_vupd v i x :
  0 <= i < Z.of_nat (length v) -> vset v i x = Some (vupd v i x).
Proof. intros Hi. unfold vset. now rewrite decide_True by lia. Qed.

Lemma length_vupd v i x : length (vupd v i x) = length v.
Proof. apply length_insert. Qed.

Lemma vat_vupd_eq v i x :
  0 <= i < Z.of_nat (length v) -> vat (vupd v i x) i = x.
Proof.
  intros Hi. unfold vat, vget, vupd. rewrite decide_True by lia.
  rewrite list_lookup_insert_eq by lia. reflexivity.
Qed.

Lemma vat_vupd_ne v i j x :
  0 <= i -> 0 <= j -> i <> j -> vat (vupd v i x) j = vat v j.
Proof.
  intros Hi Hj Hne. unfold vat, vget, vupd.
  rewrite list_lookup_insert_ne by lia. reflexivity.
Qed.

Lemma vadd_vupd v i x :
  0 <= i < Z.of_nat (length v) ->
  vadd v i x = Some (vupd v i (sadd (vat v i) x)).
Proof.
  intros Hi. unfold vadd. rewrite vget_vat by lia. cbn.
  now apply vset_vupd.
Qed.
End VectorFacts.

(** ** The rule for counted loops

    An invariant that every iteration keeps, together with the success of
    every iteration, gives the success of the loop and the invariant at
    the exit. *)
Lemma for_loop_rule {S : Type} (P : Z -> S -> Prop) (n : nat) (lo : Z)
    (body : Z -> S -> option S) (s : S) :
  0 <= lo -> lo + Z.of_nat n < 2 ^ 64 ->
  P lo s ->
  (forall i t, lo <= i < lo + Z.of_nat n -> P i t ->
     exists t', body i t = Some t' /\ P (i + 1) t') ->
  exists s', for_loop n lo body s = Some s' /\ P (lo + Z.of_nat n) s'.
Proof.
  revert lo s. induction n as [|n IH]; intros lo s Hlo Hhi HP Hbody.
  - exists s. split; [reflexivity|]. now replace (lo + Z.of_nat 0) with lo by lia.
  - destruct (Hbody lo s) as (t & Ht & HPt); [lia|assumption|].
    cbn [for_loop]. rewrite Ht. cbn.
    rewrite sz_add_small by lia.
    destruct (IH (lo + 1) t) as (s' & Hs' & HP'); [lia|lia|assumption| |].
    + intros i u Hi. apply Hbody. lia.
    + exists s'. split; [assumption|].
      now replace (lo + Z.of_nat (Datatypes.S n)) with (lo + 1 + Z.of_nat n) by lia.
Qed.

Lemma for_range_rule {S : Type} (P : Z -> S -> Prop) (lo hi : Z)
    (body : Z -> S -> option S) (s : S) :
  0 <= lo <= hi -> hi < 2 ^ 64 ->
  P lo s ->
  (forall i t, lo <= i < hi -> P i t ->
     exists t', body i t = Some t' /\ P (i + 1) t') ->
  exists s', for_range lo hi body s = Some s' /\ P hi s'.
Proof.
  intros Hlo Hhi HP Hbody. unfold for_range.
  destruct (for_loop_rule P (Z.to_nat (hi - lo)) lo body s) as (s' & Hs & HP');
    [lia|lia|assumption| |].
  - intros i t Hi. apply Hbody. lia.
  - exists s'. split; [assumption|].
    now replace (lo + Z.of_nat (Z.to_nat (hi - lo))) with hi in HP' by lia.
Qed.

(** ** Steps of the error monad *)

Lemma bind_Some_l {A B : Type} (f : A -> option B) (x : A) :
  mbind f (Some x) = f x.
Proof. reflexivity. Qed.

Lemma bind_None_l {A B : Type} (f : A -> option B) : mbind f None = None.
Proof. reflexivity. Qed.

(** ** The formulator on the operation tape, horizon 2

    The decision vector is [x0 x1 y0 y1 psi0 psi1 v0 v1 cte0 cte1 epsi0
    epsi1 delta0 a0], so [vars[4]] is [psi0], [vars[6]] is [v0] and
    [vars[12]] is [delta0]. *)

Example tape_psi_residual :
  fg_eval 2 tape_coeffs (vfill 13 (EInt 0)) (independent 14)
    ≫= (fun fg => vget fg 6)
  = Some (ESub (EVar 5)
            (ESub (EVar 4)
               (EMul (EDiv (EMul (EVar 6) (EVar 12)) (ELit 2.67))
                  (ELit 0.1)))).
Proof. vm_compute. reflexivity. Qed.

Example tape_initial_psi :
  fg_eval 2 tape_coeffs (vfill 13 (EInt 0)) (independent 14)
    ≫= (fun fg => vget fg 5)
  = Some (EVar 4).
Proof. vm_compute. reflexivity. Qed.

Example tape_result :
  Solve_result 2 (independent 14) = Some [EVar 12; EVar 13; EVar 1; EVar 3].
Proof. vm_compute. reflexivity. Qed.

(** ** The loop bodies of the formulator *)

Ltac in_range := rewrite ?length_vupd; lia.

(** Runs the assignments at the head of a chain of steps. *)
Ltac run_head :=
  repeat match goal with
    | |- mbind ?f (vset ?v ?i ?x) = _ =>
        rewrite (vset_vupd v i x), (bind_Some_l f) by in_range
    end.

(** Reads through the updates of a vector. *)
Ltac vat_simpl :=
  repeat first [ rewrite vat_vupd_eq by in_range
               | rewrite vat_vupd_ne by lia ].

(** Runs a loop body whose accesses are all inside their vectors. *)
Ltac run_body :=
  repeat (first [ rewrite vget_vat by in_range
                | rewrite vadd_vupd by in_range
                | rewrite vset_vupd by in_range ];
          cbn [mbind option_bind]).

Section AccumulateFacts.
Context {T : Type} `{Scalar T}.

Lemma vupd_vupd (v : list T) (i : Z) (x y : T) :
  vupd (vupd v i x) i y = vupd v i y.
Proof. apply list_insert_insert_eq. Qed.

(** A loop that only ever adds to [fg[0]]. *)
Lemma accumulate_loop (step : T -> Z -> T) (body : Z -> list T -> option (list T))
    (n : Z) (fg : list T) :
  0 <= n < 2 ^ 64 -> (0 < length fg)%nat ->
  (forall i t, 0 <= i < n -> (0 < length t)%nat ->
     body i t = Some (vupd t 0 (step (vat t 0) i))) ->
  exists fg', for_range 0 n body fg = Some fg' /\
    length fg' = length fg /\
    vat fg' 0 = accumulate step (Z.to_nat n) (vat fg 0) /\
    forall j, 0 < j -> vat fg' j = vat fg j.
Proof.
  intros Hn Hfg Hbody.
  apply (for_range_rule
    (fun k t => length t = length fg /\
       vat t 0 = accumulate step (Z.to_nat k) (vat fg 0) /\
       forall j, 0 < j -> vat t j = vat fg j)); [lia|lia| |].
  - repeat split; reflexivity.
  - intros i t Hi (Hlen & Hacc & Hframe).
    rewrite Hbody by lia. eexists; split; [reflexivity|].
    rewrite length_vupd. split; [assumption|]. split.
    + rewrite vat_vupd_eq by lia.
      replace (Z.to_nat (i + 1)) with (Datatypes.S (Z.to_nat i)) by lia.
      cbn [accumulate]. rewrite Hacc. f_equal. lia.
    + intros j Hj. rewrite vat_vupd_ne by lia. now apply Hframe.
Qed.
End AccumulateFacts.

Section FormulatorFacts.
Context {T : Type} `{Scalar T}.
Variable N : Z.
Hypothesis HN : horizon N.
Variables coeffs vars : list T.
Hypothesis Hvars : Z.of_nat (length vars) = n_vars N.

Lemma cost_reference_total (i : Z) (fg : list T) :
  0 <= i < N -> (0 < length fg)%nat ->
  cost_reference N vars i fg = Some (vupd fg 0 (track_step N vars (vat fg 0) i)).
Proof.
  intros Hi Hfg. unfold cost_reference, track_step. layout N. unwrap.
  run_body. rewrite !vat_vupd_eq by in_range.
  rewrite !vupd_vupd. reflexivity.
Qed.

Lemma cost_actuators_total (i : Z) (fg : list T) :
  0 <= i < N - 1 -> (0 < length fg)%nat ->
  cost_actuators N vars i fg
  = Some (vupd fg 0 (effort_step N vars (vat fg 0) i)).
Proof.
  intros Hi Hfg. unfold cost_actuators, effort_step. layout N. unwrap.
  run_body. rewrite !vat_vupd_eq by in_range.
  rewrite !vupd_vupd. reflexivity.
Qed.

Lemma cost_gaps_total (i : Z) (fg : list T) :
  0 <= i < N - 2 -> (0 < length fg)%nat ->
  cost_gaps N vars i fg = Some (vupd fg 0 (smooth_step N vars (vat fg 0) i)).
Proof.
  intros Hi Hfg. unfold cost_gaps, smooth_step. layout N. unwrap.
  run_body. rewrite !vat_vupd_eq by in_range.
  rewrite !vupd_vupd. reflexivity.
Qed.

Lemma init_constraint_total (s : Z) (fg : list T) :
  0 <= s < n_vars N -> 1 + s < Z.of_nat (length fg) ->
  init_constraint vars s fg = Some (vupd fg (1 + s) (vat vars s)).
Proof.
  intros Hs Hfg. unfold init_constraint. layout N. unwrap. run_body.
  reflexivity.
Qed.

Hypothesis Hcoeffs : (4 <= length coeffs)%nat.

Lemma constraint_step_total (i : Z) (fg : list T) :
  0 <= i < N - 1 -> Z.of_nat (length fg) = 1 + n_constraints N ->
  constraint_step N coeffs vars i fg
  = Some (vupd (vupd (vupd (vupd (vupd (vupd fg
      (2 + x_start + i) (res_x N vars i))
      (2 + y_start N + i) (res_y N vars i))
      (2 + psi_start N + i) (res_psi N vars i))
      (2 + v_start N + i) (res_v N vars i))
      (2 + cte_start N + i) (res_cte N coeffs vars i))
      (2 + epsi_start N + i) (res_epsi N coeffs vars i)).
Proof.
  intros Hi Hfg.
  unfold constraint_step, res_x, res_y, res_psi, res_v, res_cte, res_epsi,
    f0, psides0.
  layout N. unwrap. run_body. reflexivity.
Qed.

Lemma constraint_loop (fg : list T) :
  Z.of_nat (length fg) = 1 + n_constraints N ->
  exists fg', for_range 0 (N -! 1) (constraint_step N coeffs vars) fg = Some fg' /\
    length fg' = length fg /\
    (forall i, 0 <= i < N - 1 -> residuals_at N coeffs vars fg' i) /\
    (forall j, pinned N j -> vat fg' j = vat fg j).
Proof.
  intros Hfg.
  assert (HN1 : N -! 1 = N - 1)
    by (unfold horizon, size_t_bits in HN; now unwrap).
  rewrite HN1.
  apply (for_range_rule
    (fun k t => length t = length fg /\
       (forall i, 0 <= i < k -> residuals_at N coeffs vars t i) /\
       (forall j, pinned N j -> vat t j = vat fg j)));
    [unfold horizon in HN; lia|unfold horizon, size_t_bits in HN; lia| |].
  - repeat split; intros; lia.
  - intros k t Hk (Hlen & Hres & Hframe).
    rewrite constraint_step_total by lia.
    eexists; split; [reflexivity|].
    rewrite !length_vupd. split; [assumption|].
    layout N. split.
    + intros i Hi. unfold residuals_at.
      destruct (decide (i = k)) as [->|Hne].
      * layout N. repeat split; vat_simpl; reflexivity.
      * destruct (Hres i) as (R1 & R2 & R3 & R4 & R5 & R6); [lia|].
        layout N. repeat split; vat_simpl; assumption.
    + intros j Hj. rewrite <- Hframe by assumption.
      unfold pinned in Hj. layout N.
      vat_simpl; reflexivity.
Qed.
End FormulatorFacts.

(** ** The formulator as a whole

    On vectors of the solver's sizes and with four coefficients, an
    evaluation succeeds and leaves exactly the expected content. *)
Lemma fg_eval_total {T : Type} `{Scalar T} (N : Z) (coeffs fg vars : list T) :
  horizon N -> sized N fg vars -> (4 <= length coeffs)%nat ->
  exists fg', fg_eval N coeffs fg vars = Some fg' /\
    fg_expected N coeffs vars fg'.
Proof.
  intros HN [Hvars Hfg] Hco. unfold fg_eval.
  assert (HB : 2 <= N /\ 8 * N <= 2 ^ 64) by exact HN.
  assert (HN1 : N -! 1 = N - 1) by now unwrap.
  assert (HN2 : N -! 2 = N - 2) by now unwrap.
  assert (Hnc : n_constraints N = 6 * N) by (now layout N).
  rewrite vset_vupd by lia. cbn [mbind option_bind].
  destruct (accumulate_loop (track_step N vars) (cost_reference N vars) N
              (vupd fg 0 (of_int 0))) as (fg1 & E1 & L1 & C1 & F1);
    [lia|in_range|intros; now apply cost_reference_total|].
  rewrite E1. cbn [mbind option_bind]. rewrite HN1.
  destruct (accumulate_loop (effort_step N vars) (cost_actuators N vars) (N - 1)
              fg1) as (fg2 & E2 & L2 & C2 & F2);
    [lia|rewrite L1; in_range|intros; now apply cost_actuators_total|].
  rewrite E2. cbn [mbind option_bind]. rewrite HN2.
  destruct (accumulate_loop (smooth_step N vars) (cost_gaps N vars) (N - 2)
              fg2) as (fg3 & E3 & L3 & C3 & F3);
    [lia|rewrite L2, L1; in_range|intros; now apply cost_gaps_total|].
  rewrite E3. cbn [mbind option_bind].
  rewrite length_vupd in L1.
  assert (Hl3 : Z.of_nat (length fg3) = 1 + 6 * N) by lia.
  repeat (rewrite (init_constraint_total N HN vars Hvars)
            by (layout N; rewrite ?length_vupd; lia);
          cbn [mbind option_bind]).
  match goal with
  | |- context [for_range 0 (N - 1) _ ?g] =>
      destruct (constraint_loop N HN coeffs vars Hvars Hco g)
        as (fg' & E4 & L4 & R4 & F4)
  end.
  { rewrite !length_vupd. lia. }
  rewrite HN1 in E4. rewrite E4. exists fg'. split; [reflexivity|].
  rewrite !length_vupd in L4.
  unfold fg_expected. split; [lia|]. split.
  - rewrite F4 by (left; reflexivity).
    layout N. vat_simpl.
    rewrite C3, C2, C1. rewrite vat_vupd_eq by lia. reflexivity.
  - split; [|exact R4].
    unfold pinned in F4.
    repeat split; (rewrite F4 by tauto); layout N; vat_simpl; reflexivity.
Qed.

(** The residuals of the initial-state block are the candidate's own
    values at timestep 0. *)
Lemma fg_initial_block {T : Type} `{Scalar T} (N : Z) (coeffs fg vars : list T) :
  horizon N -> sized N fg vars -> (4 <= length coeffs)%nat ->
  exists fg', fg_eval N coeffs fg vars = Some fg' /\
    forall c, 0 <= c < 6 -> vat fg' (1 + c * N) = vat vars (c * N).
Proof.
  intros HN Hsz Hco.
  destruct (fg_eval_total N coeffs fg vars HN Hsz Hco)
    as (fg' & E & _ & _ & (I0 & I1 & I2 & I3 & I4 & I5) & _).
  exists fg'. split; [exact E|]. layout N. intros c Hc.
  assert (Hc6 : c = 0 \/ c = 1 \/ c = 2 \/ c = 3 \/ c = 4 \/ c = 5) by lia.
  destruct Hc6 as [ -> | [ -> | [ -> | [ -> | [ -> | -> ] ] ] ] ].
  - exact I0.
  - now replace (1 * N) with N by lia.
  - exact I2.
  - exact I3.
  - exact I4.
  - exact I5.
Qed.

(** ** The real-number reading *)

Section RealReading.
Local Open Scope R_scope.

Lemma Lf_real : @Lf R _ = Lf_spec.
Proof. unfold Lf, Lf_spec. cbn. unfold Q2R. cbn. lra. Qed.

Lemma dt_real : @dt R _ = dt_spec.
Proof. unfold dt, dt_spec. cbn. unfold Q2R. cbn. lra. Qed.

Lemma Lf_spec_nonzero : Lf_spec <> 0.
Proof. unfold Lf_spec. lra. Qed.
End RealReading.

(** Unfolds the scalar operations at the real instance. *)
Ltac real_ops :=
  cbn [sadd ssub smul sdiv sneg spow ssin scos satan of_int lit M_PI R_scalar]
    in *.

Section RealFormulator.
Local Open Scope R_scope.
Variable N : Z.
Variables coeffs vars : list R.

Lemma div_mul_swap (v d L t : R) : v * d / L * t = v / L * d * t.
Proof. unfold Rdiv. ring. Qed.

Lemma powerRZ_2 (x : R) : powerRZ x 2 = x ^ 2.
Proof. reflexivity. Qed.

Lemma powerRZ_3 (x : R) : powerRZ x 3 = x ^ 3.
Proof. reflexivity. Qed.

Lemma res_x_model (i : Z) :
  res_x N vars i = state_x vars (i + 1) - model_x N vars i.
Proof.
  unfold res_x, model_x, state_x, state_v, state_psi. real_ops.
  rewrite dt_real. now rewrite Z.add_assoc.
Qed.

Lemma res_y_model (i : Z) :
  res_y N vars i = state_y N vars (i + 1) - model_y N vars i.
Proof.
  unfold res_y, model_y, state_y, state_v, state_psi. real_ops.
  rewrite dt_real. now rewrite Z.add_assoc.
Qed.

Lemma res_psi_model (i : Z) :
  res_psi N vars i = state_psi N vars (i + 1) - model_psi N vars i.
Proof.
  unfold res_psi, model_psi, state_psi, state_v, control_delta. real_ops.
  rewrite dt_real, Lf_real, Z.add_assoc, div_mul_swap. reflexivity.
Qed.

Lemma res_v_model (i : Z) :
  res_v N vars i = state_v N vars (i + 1) - model_v N vars i.
Proof.
  unfold res_v, model_v, state_v, control_a. real_ops.
  rewrite dt_real. now rewrite Z.add_assoc.
Qed.

Lemma res_cte_model (i : Z) :
  res_cte N coeffs vars i
  = state_cte N vars (i + 1) - model_cte N coeffs vars i.
Proof.
  unfold res_cte, f0, model_cte, path_f, state_cte, state_x, state_y,
    state_v, state_epsi.
  real_ops. rewrite dt_real, Z.add_assoc, powerRZ_2, powerRZ_3. reflexivity.
Qed.

Lemma res_epsi_model (i : Z) :
  res_epsi N coeffs vars i
  = state_epsi N vars (i + 1) - model_epsi N coeffs vars i.
Proof.
  unfold res_epsi, psides0, model_epsi, path_psi_des, state_epsi, state_x,
    state_psi, state_v, control_delta.
  real_ops. rewrite dt_real, Lf_real, Z.add_assoc, powerRZ_2, div_mul_swap.
  reflexivity.
Qed.
End RealFormulator.

(** Side conditions at the concrete inputs. *)
Ltac sample_side :=
  first [ unfold horizon, N_source, size_t_bits; lia
        | split; reflexivity
        | cbn; lia ].

(** C1: for every horizon index [i] in [[0, N-1)] and every candidate
    vector, an evaluation succeeds and the residual it writes for each of
    the six state components at timestep [i+1] is the candidate's value at
    [i+1] minus the value the kinematic bicycle model predicts from
    timestep [i], with [Lf = 2.67]; in particular
    [psi' = psi - (v/Lf)*delta*dt],
    [cte' = (f(x) - y) + v*sin(epsi)*dt] and
    [epsi' = (psi - atan(c1 + 2*c2*x + 3*c3*x^2)) - (v/Lf)*delta*dt]. *)
Theorem C1_residuals_follow_model (N : Z) (coeffs fg vars : list R) :
  horizon N -> sized N fg vars -> (4 <= length coeffs)%nat ->
  exists fg', fg_eval N coeffs fg vars = Some fg' /\
    forall i, 0 <= i < N - 1 ->
      vat fg' (1 + (x_start + (i + 1)))
        = (state_x vars (i + 1) - model_x N vars i)%R /\
      vat fg' (1 + (y_start N + (i + 1)))
        = (state_y N vars (i + 1) - model_y N vars i)%R /\
      vat fg' (1 + (psi_start N + (i + 1)))
        = (state_psi N vars (i + 1) - model_psi N vars i)%R /\
      vat fg' (1 + (v_start N + (i + 1)))
        = (state_v N vars (i + 1) - model_v N vars i)%R /\
      vat fg' (1 + (cte_start N + (i + 1)))
        = (state_cte N vars (i + 1) - model_cte N coeffs vars i)%R /\
      vat fg' (1 + (epsi_start N + (i + 1)))
        = (state_epsi N vars (i + 1) - model_epsi N coeffs vars i)%R.
Proof.
  intros HN Hsz Hco.
  destruct (fg_eval_total N coeffs fg vars HN Hsz Hco)
    as (fg' & E & _ & _ & _ & Hres).
  exists fg'. split; [exact E|]. intros i Hi.
  destruct (Hres i Hi) as (R1 & R2 & R3 & R4 & R5 & R6).
  rewrite <- res_x_model, <- res_y_model, <- res_psi_model, <- res_v_model,
    <- res_cte_model, <- res_epsi_model.
  rewrite <- R1, <- R2, <- R3, <- R4, <- R5, <- R6.
  repeat split; f_equal; lia.
Qed.

Lemma C1_residuals_follow_model_witness :
  horizon N_source /\ sized N_source sample_fg sample_vars /\
  (4 <= length sample_coeffs)%nat /\
  exists fg', fg_eval N_source sample_coeffs sample_fg sample_vars = Some fg' /\
    forall i, 0 <= i < N_source - 1 ->
      vat fg' (1 + (x_start + (i + 1)))
        = (state_x sample_vars (i + 1) - model_x N_source sample_vars i)%R /\
      vat fg' (1 + (y_start N_source + (i + 1)))
        = (state_y N_source sample_vars (i + 1)
           - model_y N_source sample_vars i)%R /\
      vat fg' (1 + (psi_start N_source + (i + 1)))
        = (state_psi N_source sample_vars (i + 1)
           - model_psi N_source sample_vars i)%R /\
      vat fg' (1 + (v_start N_source + (i + 1)))
        = (state_v N_source sample_vars (i + 1)
           - model_v N_source sample_vars i)%R /\
      vat fg' (1 + (cte_start N_source + (i + 1)))
        = (state_cte N_source sample_vars (i + 1)
           - model_cte N_source sample_coeffs sample_vars i)%R /\
      vat fg' (1 + (epsi_start N_source + (i + 1)))
        = (state_epsi N_source sample_vars (i + 1)
           - model_epsi N_source sample_coeffs sample_vars i)%R.
Proof.
  split; [sample_side|]. split; [sample_side|]. split; [sample_side|].
  apply (C1_residuals_follow_model N_source sample_coeffs sample_fg sample_vars);
    sample_side.
Defined.

(** ** The cost as a sum *)

Lemma accumulate_Rsum (step : R -> Z -> R) (g : Z -> R) (n : nat) (c : R) :
  (forall a i, step a i = (a + g i)%R) ->
  accumulate step n c = (c + Rsum n g)%R.
Proof.
  intros Hstep. induction n as [|n IH]; cbn [accumulate Rsum].
  - lra.
  - rewrite Hstep, IH. lra.
Qed.

Lemma add2_assoc (a x y : R) : (a + x + y = a + (x + y))%R.
Proof. ring. Qed.

Lemma add3_assoc (a x y z : R) : (a + x + y + z = a + (x + y + z))%R.
Proof. ring. Qed.

Lemma zero_add3 (x y z : R) : (0 + x + y + z = x + y + z)%R.
Proof. ring. Qed.

Lemma cost_real (N : Z) (vars : list R) : cost N vars = cost_spec N vars.
Proof.
  unfold cost, cost_spec, tracking_cost, effort_cost, smoothness_cost.
  rewrite (accumulate_Rsum (smooth_step N vars) (fun i =>
    200 * (control_delta N vars (i + 1) - control_delta N vars i) ^ 2
    + 1 * (control_a N vars (i + 1) - control_a N vars i) ^ 2)%R).
  2:{ intros a i. unfold smooth_step, control_delta, control_a. real_ops.
      rewrite !powerRZ_2, !Z.add_assoc. apply add2_assoc. }
  rewrite (accumulate_Rsum (effort_step N vars) (fun i =>
    1 * control_delta N vars i ^ 2 + 1 * control_a N vars i ^ 2)%R).
  2:{ intros a i. unfold effort_step, control_delta, control_a. real_ops.
      rewrite !powerRZ_2. apply add2_assoc. }
  rewrite (accumulate_Rsum (track_step N vars) (fun i =>
    3000 * (state_cte N vars i - 0) ^ 2 + 500 * (state_epsi N vars i - 0) ^ 2
    + 1 * (state_v N vars i - 40) ^ 2)%R).
  2:{ intros a i. unfold track_step, state_cte, state_epsi, state_v,
        ref_cte, ref_epsi, ref_v. real_ops.
      rewrite !powerRZ_2. apply add3_assoc. }
  real_ops. apply zero_add3.
Qed.

(** C2: for every candidate vector, an evaluation succeeds and the cost it
    leaves in [fg[0]] is the sum of the tracking terms for [i] in [[0,N)]
    (weights 3000, 500, 1 against the targets 0, 0, 40), the control-effort
    terms for [i] in [[0,N-1)] (weights 1, 1) and the control-smoothness
    terms on consecutive controls for [i] in [[0,N-2)] (weights 200, 1). *)
Theorem C2_cost_is_weighted_sum (N : Z) (coeffs fg vars : list R) :
  horizon N -> sized N fg vars -> (4 <= length coeffs)%nat ->
  exists fg', fg_eval N coeffs fg vars = Some fg' /\
    vat fg' 0 = cost_spec N vars.
Proof.
  intros HN Hsz Hco.
  destruct (fg_eval_total N coeffs fg vars HN Hsz Hco)
    as (fg' & E & _ & Hcost & _).
  exists fg'. split; [exact E|]. rewrite Hcost. apply cost_real.
Qed.

Lemma C2_cost_is_weighted_sum_witness :
  horizon N_source /\ sized N_source sample_fg sample_vars /\
  (4 <= length sample_coeffs)%nat /\
  exists fg', fg_eval N_source sample_coeffs sample_fg sample_vars = Some fg' /\
    vat fg' 0 = cost_spec N_source sample_vars.
Proof.
  split; [sample_side|]. split; [sample_side|]. split; [sample_side|].
  apply (C2_cost_is_weighted_sum N_source sample_coeffs sample_fg sample_vars);
    sample_side.
Defined.

(** ** Coefficient reads *)

(** A chain of steps has no result when its last step has none. *)
Ltac skip_steps :=
  repeat match goal with
    | |- mbind _ ?m = None =>
        destruct m; [rewrite bind_Some_l|apply bind_None_l]
    end.

Section CoefficientReads.
Context {T : Type} `{Scalar T}.
Variable N : Z.
Variable coeffs : list T.
Hypothesis Hshort : (length coeffs < 4)%nat.

Lemma constraint_step_short (vars : list T) (i : Z) (fg : list T) :
  constraint_step N coeffs vars i fg = None.
Proof.
  unfold constraint_step.
  repeat match goal with
    | |- mbind _ (vget vars ?j) = None =>
        destruct (vget vars j); [rewrite bind_Some_l|apply bind_None_l]
    end.
  destruct (decide (length coeffs = 0)%nat);
    [rewrite (vget_None coeffs 0) by lia; apply bind_None_l|].
  rewrite (vget_vat coeffs 0), bind_Some_l by lia.
  destruct (decide (length coeffs = 1)%nat);
    [rewrite (vget_None coeffs 1) by lia; apply bind_None_l|].
  rewrite (vget_vat coeffs 1), bind_Some_l by lia.
  destruct (decide (length coeffs = 2)%nat);
    [rewrite (vget_None coeffs 2) by lia; apply bind_None_l|].
  rewrite (vget_vat coeffs 2), bind_Some_l by lia.
  rewrite (vget_None coeffs 3) by lia. apply bind_None_l.
Qed.

Lemma fg_eval_short (fg vars : list T) :
  2 <= N < 2 ^ 64 -> fg_eval N coeffs fg vars = None.
Proof.
  intros HN. unfold fg_eval. skip_steps.
  rewrite sz_sub_small by lia. unfold for_range.
  destruct (Z.to_nat (N - 1 - 0)) as [|n] eqn:E; [lia|].
  cbn [for_loop]. rewrite constraint_step_short. apply bind_None_l.
Qed.
End CoefficientReads.

(** C10: every evaluation reads [coeffs[0]] to [coeffs[3]]: with fewer
    than four coefficients the evaluation runs into an out-of-bounds read
    whatever [fg] and [vars] are, and on vectors of the solver's sizes it
    is defined exactly when there are at least four coefficients. *)
Theorem C10_four_coefficients_required {T : Type} `{Scalar T}
    (N : Z) (coeffs : list T) :
  horizon N ->
  ((length coeffs < 4)%nat ->
     forall fg vars, fg_eval N coeffs fg vars = None) /\
  (forall fg vars, sized N fg vars ->
     (is_Some (fg_eval N coeffs fg vars) <-> (4 <= length coeffs)%nat)).
Proof.
  intros HN.
  assert (HB : 2 <= N < 2 ^ 64) by (unfold horizon, size_t_bits in HN; lia).
  split.
  - intros Hshort fg vars. now apply fg_eval_short.
  - intros fg vars Hsz. split.
    + intros [fg' E]. destruct (le_lt_dec 4 (length coeffs)) as [|Hshort];
        [assumption|].
      rewrite fg_eval_short in E by assumption. discriminate.
    + intros Hco. destruct (fg_eval_total N coeffs fg vars HN Hsz Hco)
        as (fg' & E & _). now exists fg'.
Qed.

Lemma C10_four_coefficients_required_witness :
  horizon N_source /\
  ((length [1; 2; 3]%R < 4)%nat ->
     forall fg vars, fg_eval N_source [1; 2; 3]%R fg vars = None) /\
  (forall fg vars, sized N_source fg vars ->
     (is_Some (fg_eval N_source [1; 2; 3]%R fg vars)
      <-> (4 <= length [1; 2; 3]%R)%nat)).
Proof.
  split; [sample_side|].
  apply (C10_four_coefficients_required N_source [1; 2; 3]%R); sample_side.
Defined.

(** ** Loops that fill vectors *)

Section FillFacts.
Context {T : Type} `{Scalar T}.

Lemma length_vfill (n : Z) (x : T) :
  0 <= n -> Z.of_nat (length (vfill n x)) = n.
Proof. intros Hn. unfold vfill. rewrite length_replicate. lia. Qed.

Lemma fill_loop (x : T) (lo hi : Z) (v : list T) :
  0 <= lo <= hi -> hi <= Z.of_nat (length v) -> hi < 2 ^ 64 ->
  exists w, for_range lo hi (fun i v => vset v i x) v = Some w /\
    length w = length v /\
    (forall j, lo <= j < hi -> vat w j = x) /\
    (forall j, 0 <= j -> ~ lo <= j < hi -> vat w j = vat v j).
Proof.
  intros Hlo Hlen Hhi.
  apply (for_range_rule
    (fun k w => length w = length v /\
       (forall j, lo <= j < k -> vat w j = x) /\
       (forall j, 0 <= j -> ~ lo <= j < k -> vat w j = vat v j)));
    [lia|lia| |].
  - repeat split; intros; lia.
  - intros i w Hi (Hl & Hin & Hout).
    rewrite vset_vupd by lia. eexists; split; [reflexivity|].
    rewrite length_vupd. split; [assumption|]. split.
    + intros j Hj. destruct (decide (j = i)) as [->|Hne].
      * now rewrite vat_vupd_eq by lia.
      * rewrite vat_vupd_ne by lia. apply Hin. lia.
    + intros j Hj Hnot. rewrite vat_vupd_ne by lia. apply Hout; lia.
Qed.

Lemma assign_both_loop (a b : T) (lo hi : Z) (v1 v2 : list T) :
  0 <= lo <= hi -> hi <= Z.of_nat (length v1) -> hi <= Z.of_nat (length v2) ->
  hi < 2 ^ 64 ->
  exists w1 w2, for_range lo hi (assign_both a b) (v1, v2) = Some (w1, w2) /\
    length w1 = length v1 /\ length w2 = length v2 /\
    (forall j, lo <= j < hi -> vat w1 j = a /\ vat w2 j = b) /\
    (forall j, 0 <= j -> ~ lo <= j < hi ->
       vat w1 j = vat v1 j /\ vat w2 j = vat v2 j).
Proof.
  intros Hlo Hlen1 Hlen2 Hhi.
  destruct (for_range_rule
    (fun k (w : list T * list T) =>
       length w.1 = length v1 /\ length w.2 = length v2 /\
       (forall j, lo <= j < k -> vat w.1 j = a /\ vat w.2 j = b) /\
       (forall j, 0 <= j -> ~ lo <= j < k ->
          vat w.1 j = vat v1 j /\ vat w.2 j = vat v2 j))
    lo hi (assign_both a b) (v1, v2)) as ([w1 w2] & E & HP);
    [lia|lia| | |].
  - cbn [fst snd]. repeat split; intros; lia.
  - intros i [u1 u2] Hi (Hl1 & Hl2 & Hin & Hout). cbn [fst snd] in *.
    unfold assign_both. cbn [fst snd].
    rewrite (vset_vupd u1), bind_Some_l by lia.
    rewrite (vset_vupd u2), bind_Some_l by lia.
    eexists; split; [reflexivity|]. cbn [fst snd].
    rewrite !length_vupd. split; [assumption|]. split; [assumption|]. split.
    + intros j Hj. destruct (decide (j = i)) as [->|Hne].
      * now rewrite !vat_vupd_eq by lia.
      * rewrite !vat_vupd_ne by lia. apply Hin. lia.
    + intros j Hj Hnot. rewrite !vat_vupd_ne by lia. apply Hout; lia.
  - exists w1, w2. split; [exact E|exact HP].
Qed.
End FillFacts.

(** ** The problem the driver prepares *)

Lemma Solve_problem_total {T : Type} `{Scalar T} (N : Z) (uninit : T)
    (state : list T) :
  horizon N -> (6 <= length state)%nat ->
  exists p, Solve_problem N uninit state = Some p /\
    problem_expected N state p.
Proof.
  intros HN Hst.
  assert (HB : 2 <= N /\ 8 * N <= 2 ^ 64) by exact HN.
  unfold Solve_problem. cbv zeta. layout N.
  assert (Lf1 : Z.of_nat (length (vfill (8 * N - 2) uninit)) = 8 * N - 2)
    by (apply length_vfill; lia).
  assert (Lf2 : Z.of_nat (length (vfill (6 * N) uninit)) = 6 * N)
    by (apply length_vfill; lia).
  destruct (fill_loop (lit 0.0) 0 (8 * N - 2) (vfill (8 * N - 2) uninit))
    as (v1 & E1 & L1 & I1 & _); [lia|lia|lia|].
  destruct (assign_both_loop (lit 1.0e19) (sneg (lit 1.0e19)) 0 (6 * N)
              (vfill (8 * N - 2) uninit) (vfill (8 * N - 2) uninit))
    as (u1 & l1 & E2 & Lu1 & Ll1 & I2 & _); [lia|lia|lia|lia|].
  destruct (assign_both_loop (sdiv M_PI (of_int 8))
              (sdiv (sneg M_PI) (of_int 8)) (6 * N) (7 * N - 1) u1 l1)
    as (u2 & l2 & E3 & Lu2 & Ll2 & I3 & O3); [lia|lia|lia|lia|].
  destruct (assign_both_loop (lit 1.0) (sneg (lit 1.0)) (7 * N - 1)
              (8 * N - 2) u2 l2)
    as (u3 & l3 & E4 & Lu3 & Ll3 & I4 & O4); [lia|lia|lia|lia|].
  destruct (assign_both_loop (of_int 0) (of_int 0) 0 (6 * N)
              (vfill (6 * N) uninit) (vfill (6 * N) uninit))
    as (c1 & c2 & E5 & Lc1 & Lc2 & I5 & _); [lia|lia|lia|lia|].
  eexists. split.
  { rewrite E1, bind_Some_l.
    rewrite (vget_vat state 0), bind_Some_l by lia.
    rewrite (vget_vat state 1), bind_Some_l by lia.
    rewrite (vget_vat state 2), bind_Some_l by lia.
    rewrite (vget_vat state 3), bind_Some_l by lia.
    rewrite (vget_vat state 4), bind_Some_l by lia.
    rewrite (vget_vat state 5), bind_Some_l by lia.
    run_head. rewrite E2, bind_Some_l, E3, bind_Some_l, E4, bind_Some_l.
    rewrite E5, bind_Some_l. cbn [fst snd]. run_head. reflexivity. }
  unfold problem_expected, lengths_expected, initial_point_expected,
    variable_bounds_expected, constraint_bounds_expected, pinned_or,
    state_component.
  layout N.
  cbn [nlp_vars vars_lowerbound vars_upperbound constraints_lowerbound
       constraints_upperbound].
  rewrite !length_vupd.
  split; [repeat split; lia|]. split; [|split].
  - intros j Hj. repeat case_decide; subst; vat_simpl;
      try reflexivity. apply I1. lia.
  - split; [|split]; intros j Hj.
    + destruct (O4 j) as [-> ->]; [lia|lia|].
      destruct (O3 j) as [-> ->]; [lia|lia|].
      destruct (I2 j) as [-> ->]; [lia|]. split; reflexivity.
    + destruct (O4 j) as [-> ->]; [lia|lia|].
      destruct (I3 j) as [-> ->]; [lia|]. split; reflexivity.
    + destruct (I4 j) as [-> ->]; [lia|]. split; reflexivity.
  - intros j Hj. destruct (I5 j) as [J1 J2]; [lia|].
    repeat case_decide; subst; vat_simpl; try (split; reflexivity).
    now rewrite J1, J2.
Qed.

(** ** Bounds on the variables *)

Lemma big_real : Q2R 1.0e19 = 1e19%R.
Proof.
  change (1.0e19)%Q with (100000000000000000000 # 10)%Q.
  change (1e19)%R with (1 * 10000000000000000000)%R.
  unfold Q2R. cbn [Qnum Qden]. lra.
Qed.

Lemma neg_big_real : (- Q2R 1.0e19 = - 1e19)%R.
Proof.
  change (1.0e19)%Q with (100000000000000000000 # 10)%Q.
  change (- 1e19)%R with (- 1 * 10000000000000000000)%R.
  unfold Q2R. cbn [Qnum Qden]. lra.
Qed.

Lemma one_real : Q2R 1.0 = 1%R.
Proof. unfold Q2R. cbn [Qnum Qden]. lra. Qed.

Lemma neg_one_real : (- Q2R 1.0 = - 1)%R.
Proof. unfold Q2R. cbn [Qnum Qden]. lra. Qed.

Lemma neg_div (x y : R) : (- x / y = - (x / y))%R.
Proof. unfold Rdiv. ring. Qed.

(** C4: for every input, the driver gives every one of the [6N] state
    variables the bounds [-1e19] and [+1e19], every one of the [N-1]
    steering variables the bounds [-pi/8] and [+pi/8], and every one of
    the [N-1] acceleration variables the bounds [-1] and [+1]; the three
    index ranges follow one another and end at [6N + 2(N-1)], so each
    variable index lies in exactly one of them. *)
Theorem C4_variable_bounds (N : Z) (uninit : R) (state : list R) :
  horizon N -> (6 <= length state)%nat ->
  exists p, Solve_problem N uninit state = Some p /\
    Z.of_nat (length (vars_lowerbound p)) = 6 * N + 2 * (N - 1) /\
    Z.of_nat (length (vars_upperbound p)) = 6 * N + 2 * (N - 1) /\
    (forall j, 0 <= j < 6 * N ->
       vat (vars_lowerbound p) j = (- 1e19)%R /\
       vat (vars_upperbound p) j = 1e19%R) /\
    (forall j, 6 * N <= j < 6 * N + (N - 1) ->
       vat (vars_lowerbound p) j = (- (PI / 8))%R /\
       vat (vars_upperbound p) j = (PI / 8)%R) /\
    (forall j, 6 * N + (N - 1) <= j < 6 * N + 2 * (N - 1) ->
       vat (vars_lowerbound p) j = (- 1)%R /\
       vat (vars_upperbound p) j = 1%R) /\
    delta_start N = 6 * N /\ a_start N = 6 * N + (N - 1) /\
    n_vars N = 6 * N + 2 * (N - 1).
Proof.
  intros HN Hst.
  destruct (Solve_problem_total N uninit state HN Hst)
    as (p & E & (_ & Ll & Lu & _) & _ & (B1 & B2 & B3) & _).
  exists p. split; [exact E|]. layout N.
  split; [lia|]. split; [lia|].
  split; [|split; [|split; [|repeat split; lia]]]; intros j Hj.
  - destruct (B1 j) as [-> ->]; [lia|]. real_ops.
    split; [apply neg_big_real|apply big_real].
  - destruct (B2 j) as [-> ->]; [lia|]. real_ops.
    split; [apply neg_div|reflexivity].
  - destruct (B3 j) as [-> ->]; [lia|]. real_ops.
    split; [apply neg_one_real|apply one_real].
Qed.

Lemma C4_variable_bounds_witness :
  horizon N_source /\ (6 <= length sample_state)%nat /\
  exists p, Solve_problem N_source 0%R sample_state = Some p /\
    Z.of_nat (length (vars_lowerbound p)) = 6 * N_source + 2 * (N_source - 1) /\
    Z.of_nat (length (vars_upperbound p)) = 6 * N_source + 2 * (N_source - 1) /\
    (forall j, 0 <= j < 6 * N_source ->
       vat (vars_lowerbound p) j = (- 1e19)%R /\
       vat (vars_upperbound p) j = 1e19%R) /\
    (forall j, 6 * N_source <= j < 6 * N_source + (N_source - 1) ->
       vat (vars_lowerbound p) j = (- (PI / 8))%R /\
       vat (vars_upperbound p) j = (PI / 8)%R) /\
    (forall j, 6 * N_source + (N_source - 1) <= j
               < 6 * N_source + 2 * (N_source - 1) ->
       vat (vars_lowerbound p) j = (- 1)%R /\
       vat (vars_upperbound p) j = 1%R) /\
    delta_start N_source = 6 * N_source /\
    a_start N_source = 6 * N_source + (N_source - 1) /\
    n_vars N_source = 6 * N_source + 2 * (N_source - 1).
Proof.
  split; [sample_side|]. split; [sample_side|].
  apply (C4_variable_bounds N_source 0%R sample_state); sample_side.
Defined.

(** ** Bounds on the constraints *)

Lemma six_cases (c : Z) :
  0 <= c < 6 -> c = 0 \/ c = 1 \/ c = 2 \/ c = 3 \/ c = 4 \/ c = 5.
Proof. lia. Qed.

(** C3, as amended: for every input state the driver gives all [6N]
    constraints the bounds [[0,0]], except the six constraint indices
    [0, N, 2N, 3N, 4N, 5N] (the first entry of each state block), whose
    lower and upper bounds are both component [0, 1, 2, 3, 4, 5] of the
    current state; at these six indices the residual the formulator
    writes is the candidate's own value at timestep 0. *)
Theorem C3_constraint_bounds {T : Type} `{Scalar T} (N : Z) (uninit : T)
    (state : list T) :
  horizon N -> (6 <= length state)%nat ->
  (exists p, Solve_problem N uninit state = Some p /\
     Z.of_nat (length (constraints_lowerbound p)) = 6 * N /\
     Z.of_nat (length (constraints_upperbound p)) = 6 * N /\
     (forall c, 0 <= c < 6 ->
        vat (constraints_lowerbound p) (c * N) = vat state c /\
        vat (constraints_upperbound p) (c * N) = vat state c) /\
     (forall j, 0 <= j < 6 * N -> (forall c, 0 <= c < 6 -> j <> c * N) ->
        vat (constraints_lowerbound p) j = of_int 0 /\
        vat (constraints_upperbound p) j = of_int 0)) /\
  (forall coeffs fg vars : list T,
     sized N fg vars -> (4 <= length coeffs)%nat ->
     exists fg', fg_eval N coeffs fg vars = Some fg' /\
       forall c, 0 <= c < 6 -> vat fg' (1 + c * N) = vat vars (c * N)).
Proof.
  intros HN Hst. split.
  2:{ intros coeffs fg vars Hsz Hco. now apply fg_initial_block. }
  destruct (Solve_problem_total N uninit state HN Hst)
    as (p & E & (_ & _ & _ & Ll & Lu) & _ & _ & HC).
  exists p. split; [exact E|].
  unfold constraint_bounds_expected, pinned_or, state_component in HC.
  layout N. split; [lia|]. split; [lia|]. split.
  - intros c Hc.
    destruct (six_cases c Hc) as [ -> | [ -> | [ -> | [ -> | [ -> | -> ] ] ] ] ];
      match goal with
      | |- vat _ (?k * N) = _ /\ _ =>
          destruct (HC (k * N)) as [-> ->]; [lia|];
          repeat case_decide; try lia; split; reflexivity
      end.
  - intros j Hj Hne.
    pose proof (Hne 0). pose proof (Hne 1). pose proof (Hne 2).
    pose proof (Hne 3). pose proof (Hne 4). pose proof (Hne 5).
    destruct (HC j) as [-> ->]; [lia|].
    repeat case_decide; try lia; split; reflexivity.
Qed.

Lemma C3_constraint_bounds_witness :
  horizon N_source /\ (6 <= length sample_state)%nat /\
  (exists p, Solve_problem N_source 0%R sample_state = Some p /\
     Z.of_nat (length (constraints_lowerbound p)) = 6 * N_source /\
     Z.of_nat (length (constraints_upperbound p)) = 6 * N_source /\
     (forall c, 0 <= c < 6 ->
        vat (constraints_lowerbound p) (c * N_source) = vat sample_state c /\
        vat (constraints_upperbound p) (c * N_source) = vat sample_state c) /\
     (forall j, 0 <= j < 6 * N_source ->
        (forall c, 0 <= c < 6 -> j <> c * N_source) ->
        vat (constraints_lowerbound p) j = of_int 0 /\
        vat (constraints_upperbound p) j = of_int 0)) /\
  (forall coeffs fg vars : list R,
     sized N_source fg vars -> (4 <= length coeffs)%nat ->
     exists fg', fg_eval N_source coeffs fg vars = Some fg' /\
       forall c, 0 <= c < 6 ->
         vat fg' (1 + c * N_source) = vat vars (c * N_source)).
Proof.
  split; [sample_side|]. split; [sample_side|].
  apply (C3_constraint_bounds N_source 0%R sample_state); sample_side.
Defined.

(** C3, as stated, fails at the horizon of the source for the state
    [[1; 2; 3; 4; 5; 6]]: constraint index 1 is among the first six but is
    bounded by [[0,0]], not by the state's [2]. *)
Lemma C3_first_six_counterexample :
  exists p, Solve_problem N_source 0%R sample_state = Some p /\
    ~ first_six_pinned N_source sample_state p.
Proof.
  destruct (Solve_problem_total N_source 0%R sample_state)
    as (p & E & _ & _ & _ & HC); [sample_side|sample_side|].
  exists p. split; [exact E|]. intros Hclaim.
  destruct (Hclaim 1) as [H1 _]; [vm_compute; split; congruence|].
  destruct (HC 1) as [H2 _]; [vm_compute; split; congruence|].
  rewrite H2 in H1. clear -H1.
  change (IZR 0 = IZR 2) in H1. lra.
Qed.

(** ** The returned sequence *)

Section ResultFacts.
Context {T : Type} `{Scalar T}.

Lemma length_flat_map_pairs (f g : Z -> T) (l : list Z) :
  length (flat_map (fun i => [f i; g i]) l) = (2 * length l)%nat.
Proof. induction l as [|i l IH]; cbn [flat_map length app]; lia. Qed.

Lemma length_result_spec (N : Z) (x : list T) :
  1 <= N -> Z.of_nat (length (result_spec N x)) = 2 + 2 * (N - 1).
Proof.
  intros HN. unfold result_spec.
  rewrite length_app, length_flat_map_pairs, length_seqZ. cbn [length]. lia.
Qed.

Lemma Solve_result_enough (N : Z) (x : list T) :
  horizon N -> a_start N < Z.of_nat (length x) ->
  Solve_result N x = Some (result_spec N x).
Proof.
  intros HN Hx.
  assert (HB : 2 <= N /\ 8 * N <= 2 ^ 64) by exact HN.
  unfold Solve_result, result_spec.
  assert (HN1 : N -! 1 = N - 1) by now unwrap.
  rewrite HN1. layout N.
  rewrite (vget_vat x (6 * N)), bind_Some_l by lia.
  rewrite (vget_vat x (7 * N - 1)), bind_Some_l by lia.
  cbn [app].
  destruct (for_range_rule
    (fun k r => r = [vat x (6 * N); vat x (7 * N - 1)]
       ++ flat_map (fun i => [vat x (0 + (i + 1)); vat x (N + (i + 1))])
            (seqZ 0 k))
    0 (N - 1) (push_xy N x) [vat x (6 * N); vat x (7 * N - 1)])
    as (r & E & ->); [lia|lia|reflexivity| |exact E].
  intros i r Hi ->. unfold push_xy. layout N. unwrap.
  rewrite (vget_vat x (0 + i + 1)), bind_Some_l by lia.
  rewrite (vget_vat x (N + i + 1)), bind_Some_l by lia.
  eexists. split; [reflexivity|].
  rewrite (seqZ_app 0 i 1), flat_map_app by lia.
  rewrite (seqZ_cons (0 + i) 1), (seqZ_nil (Z.succ (0 + i))) by lia.
  cbn [flat_map app].
  replace (0 + (0 + i + 1)) with (0 + i + 1) by lia.
  replace (N + (0 + i + 1)) with (N + i + 1) by lia.
  reflexivity.
Qed.
Lemma Solve_result_total (N : Z) (x : list T) :
  horizon N -> Z.of_nat (length x) = n_vars N ->
  Solve_result N x = Some (result_spec N x).
Proof.
  intros HN Hx. apply Solve_result_enough; [exact HN|]. layout N.
  unfold horizon in HN. lia.
Qed.
End ResultFacts.

(** ** The driver as a whole *)

Lemma Solve_total {T : Type} `{Scalar T} (N : Z) (uninit : T)
    (ipopt_solve : solver T) (state coeffs : list T) (p : nlp T) :
  horizon N -> Solve_problem N uninit state = Some p ->
  Z.of_nat (length (sol_x (Solve_call N ipopt_solve coeffs p))) = n_vars N ->
  Solve N uninit ipopt_solve state coeffs
  = Some (mk_solve_run (obj_value (Solve_call N ipopt_solve coeffs p))
            (result_spec N (sol_x (Solve_call N ipopt_solve coeffs p)))).
Proof.
  intros HN E Hx. unfold Solve. rewrite E, bind_Some_l. cbv zeta.
  now rewrite Solve_result_total, bind_Some_l by assumption.
Qed.

(** What [Solve] leaves behind is a function of the solution vector and
    of the cost alone. *)
Lemma Solve_ignores_status {T : Type} `{Scalar T} (N : Z) (uninit : T)
    (s1 s2 : solver T) (state coeffs : list T) (p : nlp T) :
  Solve_problem N uninit state = Some p ->
  sol_x (Solve_call N s1 coeffs p) = sol_x (Solve_call N s2 coeffs p) ->
  obj_value (Solve_call N s1 coeffs p) = obj_value (Solve_call N s2 coeffs p) ->
  Solve N uninit s1 state coeffs = Solve N uninit s2 state coeffs.
Proof.
  intros E Hx Hc. unfold Solve. rewrite E, !bind_Some_l. cbv zeta.
  now rewrite Hx, Hc.
Qed.

(** C5: for every input state and coefficients, when the solver returns a
    solution of the size of the initial point, [Solve] returns the
    solution value at the delta-block start, the value at the a-block
    start, then the solution [(x, y)] at timestep [i+1] for each [i] in
    [[0, N-1)] in order; the length is [2 + 2(N-1)]. *)
Theorem C5_returned_sequence {T : Type} `{Scalar T} (N : Z) (uninit : T)
    (ipopt_solve : solver T) (state coeffs : list T) :
  horizon N -> (6 <= length state)%nat ->
  (forall p, length (sol_x (Solve_call N ipopt_solve coeffs p))
             = length (nlp_vars p)) ->
  exists p run,
    Solve_problem N uninit state = Some p /\
    Solve N uninit ipopt_solve state coeffs = Some run /\
    result run = result_spec N (sol_x (Solve_call N ipopt_solve coeffs p)) /\
    Z.of_nat (length (result run)) = 2 + 2 * (N - 1).
Proof.
  intros HN Hst Hsol.
  destruct (Solve_problem_total N uninit state HN Hst)
    as (p & E & (Lv & _) & _).
  exists p. eexists. split; [exact E|]. split.
  - apply Solve_total; [exact HN|exact E|]. now rewrite Hsol.
  - cbn [result]. split; [reflexivity|]. apply length_result_spec.
    unfold horizon in HN. lia.
Qed.

Lemma C5_returned_sequence_witness :
  horizon N_source /\ (6 <= length sample_state)%nat /\
  (forall p, length (sol_x (Solve_call N_source (stub_solver success 0%R)
                              sample_coeffs p))
             = length (nlp_vars p)) /\
  exists p run,
    Solve_problem N_source 0%R sample_state = Some p /\
    Solve N_source 0%R (stub_solver success 0%R) sample_state sample_coeffs
      = Some run /\
    result run
      = result_spec N_source
          (sol_x (Solve_call N_source (stub_solver success 0%R)
                    sample_coeffs p)) /\
    Z.of_nat (length (result run)) = 2 + 2 * (N_source - 1).
Proof.
  split; [sample_side|]. split; [sample_side|].
  split; [intros p; reflexivity|].
  apply (C5_returned_sequence N_source 0%R (stub_solver success 0%R)
           sample_state sample_coeffs);
    [sample_side|sample_side|intros p; reflexivity].
Defined.

(** ** The solver's status *)

(** C7, as amended: when the solver reports a non-success status, [Solve]
    still extracts the first-step commands and the predicted trajectory
    from the solution vector and substitutes no default; what it leaves
    behind (the returned sequence and the printed cost) is the same for
    every solver that yields this solution vector and this cost, whatever
    status it reports: the caller receives the extracted values only. *)
Theorem C7_status_is_dropped {T : Type} `{Scalar T} (N : Z) (uninit : T)
    (ipopt_solve : solver T) (state coeffs : list T) :
  horizon N -> (6 <= length state)%nat ->
  exists p, Solve_problem N uninit state = Some p /\
    Z.of_nat (length (nlp_vars p)) = n_vars N /\
    (Z.of_nat (length (sol_x (Solve_call N ipopt_solve coeffs p))) = n_vars N ->
     status (Solve_call N ipopt_solve coeffs p) <> success ->
     Solve N uninit ipopt_solve state coeffs
     = Some (mk_solve_run (obj_value (Solve_call N ipopt_solve coeffs p))
               (result_spec N (sol_x (Solve_call N ipopt_solve coeffs p))))) /\
    (forall other : solver T,
       sol_x (Solve_call N other coeffs p)
         = sol_x (Solve_call N ipopt_solve coeffs p) ->
       obj_value (Solve_call N other coeffs p)
         = obj_value (Solve_call N ipopt_solve coeffs p) ->
       Solve N uninit other state coeffs
       = Solve N uninit ipopt_solve state coeffs).
Proof.
  intros HN Hst.
  destruct (Solve_problem_total N uninit state HN Hst)
    as (p & E & (Lv & _) & _).
  exists p. split; [exact E|]. split; [exact Lv|]. split.
  - intros Hx _. now apply Solve_total.
  - intros other Hx Hc. now apply (Solve_ignores_status N uninit _ _ _ _ p).
Qed.

Lemma C7_status_is_dropped_witness :
  horizon N_source /\ (6 <= length sample_state)%nat /\
  exists p, Solve_problem N_source 0%R sample_state = Some p /\
    status (Solve_call N_source (stub_solver (not_success 1) 7%R)
              sample_coeffs p) <> success /\
    Solve N_source 0%R (stub_solver (not_success 1) 7%R) sample_state
      sample_coeffs
    = Some (mk_solve_run 7%R (result_spec N_source (nlp_vars p))) /\
    Solve N_source 0%R (stub_solver success 7%R) sample_state sample_coeffs
    = Solve N_source 0%R (stub_solver (not_success 1) 7%R) sample_state
        sample_coeffs.
Proof.
  split; [sample_side|]. split; [sample_side|].
  destruct (C7_status_is_dropped N_source 0%R
              (stub_solver (not_success 1) 7%R) sample_state sample_coeffs)
    as (p & E & Lv & Hfail & Hsame); [sample_side|sample_side|].
  exists p. split; [exact E|]. split; [discriminate|]. split.
  - apply Hfail; [exact Lv|discriminate].
  - apply Hsame; reflexivity.
Defined.

(** C7, as stated, fails: two solvers that return the same solution
    vector and cost but report different statuses leave the caller with
    the same sequence and the same printed cost, so the status does not
    reach the caller. *)
Lemma C7_status_counterexample : ~ status_reaches_caller N_source 0%R.
Proof.
  intros (recover & Hrec).
  destruct (Solve_problem_total N_source 0%R sample_state)
    as (p & E & (Lv & _) & _); [sample_side|sample_side|].
  pose proof (Solve_total N_source 0%R (stub_solver success 7%R)
                sample_state sample_coeffs p) as S1.
  pose proof (Solve_total N_source 0%R (stub_solver (not_success 1) 7%R)
                sample_state sample_coeffs p) as S2.
  cbn [Solve_call stub_solver sol_x obj_value] in S1, S2.
  pose proof (Hrec _ _ _ p _ E (S1 ltac:(sample_side) E Lv)) as R1.
  pose proof (Hrec _ _ _ p _ E (S2 ltac:(sample_side) E Lv)) as R2.
  cbn [Solve_call stub_solver status] in R1, R2.
  rewrite R1 in R2. discriminate.
Qed.

(** ** The layout of the decision vector *)

(** C6: the decision vector is one flat sequence of length [6N + 2(N-1)]:
    six state blocks of [N] values starting at the offsets
    [0, N, 2N, 3N, 4N, 5N] (x, y, psi, v, cte, epsi), a delta block of
    [N-1] values starting at [6N] and an a block of [N-1] values starting
    at [7N-1] and ending at the end of the vector.  The driver allocates
    its vector with this length and stores the state at the block starts;
    the formulator, evaluated on the driver's vector, stays inside it and
    finds each state component at the same offset. *)
Theorem C6_layout {T : Type} `{Scalar T} (N : Z) (uninit : T)
    (state coeffs fg : list T) :
  horizon N -> (6 <= length state)%nat -> (4 <= length coeffs)%nat ->
  Z.of_nat (length fg) = 1 + n_constraints N ->
  n_vars N = 6 * N + 2 * (N - 1) /\
  (x_start = 0 /\ y_start N = N /\ psi_start N = 2 * N /\ v_start N = 3 * N /\
   cte_start N = 4 * N /\ epsi_start N = 5 * N) /\
  delta_start N = 6 * N /\ a_start N = 7 * N - 1 /\
  a_start N = delta_start N + (N - 1) /\ n_vars N = a_start N + (N - 1) /\
  exists p fg',
    Solve_problem N uninit state = Some p /\
    Z.of_nat (length (nlp_vars p)) = 6 * N + 2 * (N - 1) /\
    fg_eval N coeffs fg (nlp_vars p) = Some fg' /\
    forall c, 0 <= c < 6 ->
      vat (nlp_vars p) (c * N) = vat state c /\
      vat fg' (1 + c * N) = vat state c.
Proof.
  intros HN Hst Hco Hfg.
  assert (HL : 1 <= N /\ 8 * N <= 2 ^ 64)
    by (unfold horizon, size_t_bits in HN; lia).
  destruct (layout_offsets N (proj1 HL) (proj2 HL))
    as (Ex & Ey & Epsi & Ev & Ecte & Eepsi & Edelta & Ea & Env & Enc).
  split; [lia|]. split; [repeat split; assumption|].
  split; [assumption|]. split; [assumption|]. split; [lia|]. split; [lia|].
  destruct (Solve_problem_total N uninit state HN Hst)
    as (p & E & (Lv & _) & HI & _).
  destruct (fg_initial_block N coeffs fg (nlp_vars p) HN (conj Lv Hfg) Hco)
    as (fg' & E' & Hblock).
  exists p, fg'. split; [exact E|]. split; [lia|]. split; [exact E'|].
  unfold initial_point_expected, pinned_or, state_component in HI.
  rewrite Ex, Ey, Epsi, Ev, Ecte, Eepsi, Env in *.
  assert (HP : forall c, 0 <= c < 6 -> vat (nlp_vars p) (c * N) = vat state c).
  { intros c Hc.
    destruct (six_cases c Hc) as [ -> | [ -> | [ -> | [ -> | [ -> | -> ] ] ] ] ];
      match goal with
      | |- vat _ (?k * N) = _ =>
          rewrite (HI (k * N)) by lia; repeat case_decide; try lia; reflexivity
      end. }
  intros c Hc. split; [now apply HP|]. rewrite <- (HP c Hc).
  now apply Hblock.
Qed.

Lemma C6_layout_witness :
  horizon N_source /\ (6 <= length sample_state)%nat /\
  (4 <= length sample_coeffs)%nat /\
  Z.of_nat (length sample_fg) = 1 + n_constraints N_source /\
  n_vars N_source = 6 * N_source + 2 * (N_source - 1) /\
  (x_start = 0 /\ y_start N_source = N_source /\
   psi_start N_source = 2 * N_source /\ v_start N_source = 3 * N_source /\
   cte_start N_source = 4 * N_source /\ epsi_start N_source = 5 * N_source) /\
  delta_start N_source = 6 * N_source /\ a_start N_source = 7 * N_source - 1 /\
  a_start N_source = delta_start N_source + (N_source - 1) /\
  n_vars N_source = a_start N_source + (N_source - 1) /\
  exists p fg',
    Solve_problem N_source 0%R sample_state = Some p /\
    Z.of_nat (length (nlp_vars p)) = 6 * N_source + 2 * (N_source - 1) /\
    fg_eval N_source sample_coeffs sample_fg (nlp_vars p) = Some fg' /\
    forall c, 0 <= c < 6 ->
      vat (nlp_vars p) (c * N_source) = vat sample_state c /\
      vat fg' (1 + c * N_source) = vat sample_state c.
Proof.
  split; [sample_side|]. split; [sample_side|]. split; [sample_side|].
  split; [reflexivity|].
  apply (C6_layout N_source 0%R sample_state sample_coeffs sample_fg);
    [sample_side|sample_side|sample_side|reflexivity].
Defined.

(** ** The shortest horizon *)




(** ** Two readings of one evaluation

    The formulator uses nothing of the scalars but the operations of the
    interface.  A relation between two instances that every operation
    respects is therefore kept by an evaluation.  The only division the
    relation has to respect is the division by [Lf]. *)

Section Simulation.
Context {A B : Type} `{Scalar A} `{Scalar B}.
Variable Rel : A -> B -> Prop.
Hypothesis Rel_int : forall z, Rel (of_int z) (of_int z).
Hypothesis Rel_lit : forall q, Rel (lit q) (lit q).
Hypothesis Rel_add : forall a b a' b',
  Rel a b -> Rel a' b' -> Rel (sadd a a') (sadd b b').
Hypothesis Rel_sub : forall a b a' b',
  Rel a b -> Rel a' b' -> Rel (ssub a a') (ssub b b').
Hypothesis Rel_mul : forall a b a' b',
  Rel a b -> Rel a' b' -> Rel (smul a a') (smul b b').
Hypothesis Rel_div_Lf : forall a b, Rel a b -> Rel (sdiv a Lf) (sdiv b Lf).
Hypothesis Rel_pow : forall a b n, Rel a b -> Rel (spow a n) (spow b n).
Hypothesis Rel_sin : forall a b, Rel a b -> Rel (ssin a) (ssin b).
Hypothesis Rel_cos : forall a b, Rel a b -> Rel (scos a) (scos b).
Hypothesis Rel_atan : forall a b, Rel a b -> Rel (satan a) (satan b).

Lemma bind_sim {X Y X' Y' : Type} (RX : X -> Y -> Prop) (RX' : X' -> Y' -> Prop)
    (m : option X) (n : option Y) (f : X -> option X') (g : Y -> option Y') :
  option_Forall2 RX m n ->
  (forall x y, RX x y -> option_Forall2 RX' (f x) (g y)) ->
  option_Forall2 RX' (mbind f m) (mbind g n).
Proof.
  intros [x y Hxy|] Hfg.
  - rewrite !bind_Some_l. now apply Hfg.
  - rewrite !bind_None_l. constructor.
Qed.

Lemma vget_sim (v : list A) (w : list B) (i : Z) :
  Forall2 Rel v w -> option_Forall2 Rel (vget v i) (vget w i).
Proof.
  intros Hvw. unfold vget. destruct (decide (0 <= i)).
  - now apply Forall2_lookup.
  - constructor.
Qed.

Lemma vset_sim (v : list A) (w : list B) (i : Z) (x : A) (y : B) :
  Forall2 Rel v w -> Rel x y ->
  option_Forall2 (Forall2 Rel) (vset v i x) (vset w i y).
Proof.
  intros Hvw Hxy. unfold vset. rewrite <- (Forall2_length _ _ _ Hvw).
  destruct (decide (0 <= i < Z.of_nat (length v))).
  - constructor. now apply Forall2_insert.
  - constructor.
Qed.

Lemma vadd_sim (v : list A) (w : list B) (i : Z) (x : A) (y : B) :
  Forall2 Rel v w -> Rel x y ->
  option_Forall2 (Forall2 Rel) (vadd v i x) (vadd w i y).
Proof.
  intros Hvw Hxy. unfold vadd.
  apply (bind_sim Rel); [now apply vget_sim|].
  intros a b Hab. apply vset_sim; [assumption|now apply Rel_add].
Qed.

Lemma for_loop_sim {S1 S2 : Type} (RS : S1 -> S2 -> Prop)
    (body1 : Z -> S1 -> option S1) (body2 : Z -> S2 -> option S2)
    (n : nat) (i : Z) (s1 : S1) (s2 : S2) :
  (forall j t1 t2, RS t1 t2 -> option_Forall2 RS (body1 j t1) (body2 j t2)) ->
  RS s1 s2 ->
  option_Forall2 RS (for_loop n i body1 s1) (for_loop n i body2 s2).
Proof.
  intros Hbody. revert i s1 s2.
  induction n as [|n IH]; intros i s1 s2 Hs; cbn [for_loop].
  - now constructor.
  - apply (bind_sim RS); [now apply Hbody|]. intros t1 t2 Ht. now apply IH.
Qed.

(** Peels the steps of two chains that run side by side. *)
Ltac sim_steps :=
  repeat first
    [ assumption
    | apply Rel_int | apply Rel_lit | apply Rel_add | apply Rel_sub
    | apply Rel_mul | apply Rel_div_Lf | apply Rel_pow | apply Rel_sin
    | apply Rel_cos | apply Rel_atan
    | apply vget_sim | apply vset_sim | apply vadd_sim
    | apply (bind_sim Rel); [|intros ? ? ?]
    | apply (bind_sim (Forall2 Rel)); [|intros ? ? ?] ].

Variable N : Z.
Variables (coeffs vars : list A) (coeffs' vars' : list B).
Hypothesis Hcoeffs : Forall2 Rel coeffs coeffs'.
Hypothesis Hvars : Forall2 Rel vars vars'.

Lemma fg_eval_sim (fg : list A) (fg' : list B) :
  Forall2 Rel fg fg' ->
  option_Forall2 (Forall2 Rel)
    (fg_eval N coeffs fg vars) (fg_eval N coeffs' fg' vars').
Proof.
  intros Hfg. unfold fg_eval.
  apply (bind_sim (Forall2 Rel)); [sim_steps|]. intros g1 g1' H1.
  apply (bind_sim (Forall2 Rel)).
  { apply for_loop_sim; [|assumption]. intros j t t' Ht.
    unfold cost_reference, ref_cte, ref_epsi, ref_v. sim_steps. }
  intros g2 g2' H2. apply (bind_sim (Forall2 Rel)).
  { apply for_loop_sim; [|assumption]. intros j t t' Ht.
    unfold cost_actuators. sim_steps. }
  intros g3 g3' H3. apply (bind_sim (Forall2 Rel)).
  { apply for_loop_sim; [|assumption]. intros j t t' Ht.
    unfold cost_gaps. sim_steps. }
  intros g4 g4' H4. unfold init_constraint.
  do 6 (apply (bind_sim (Forall2 Rel)); [sim_steps|]; intros ? ? ?).
  apply for_loop_sim; [|assumption]. intros j t t' Ht.
  unfold constraint_step, dt. cbv zeta. sim_steps.
Qed.
End Simulation.

(** ** The recorded operations *)

Section TapeReading.
Variable env : Z -> R.

Lemma denote_Lf : denote env Lf = Some Lf_spec.
Proof. reflexivity. Qed.

Ltac tape_op :=
  unfold tape_reading in *;
  cbn [sadd ssub smul sdiv sneg spow ssin scos satan of_int lit expr_scalar
       divisors denote];
  repeat match goal with
    | H : _ /\ _ |- _ => destruct H
    | H : denote env _ = Some _ |- _ => rewrite H; clear H
    end;
  rewrite ?bind_Some_l; split; [rewrite ?Forall_app; auto|reflexivity].

Lemma tape_int (z : Z) : tape_reading env (of_int z) (of_int z).
Proof. tape_op. Qed.

Lemma tape_lit (q : Q) : tape_reading env (lit q) (lit q).
Proof. tape_op. Qed.

Lemma tape_add (a : expr) (b : R) (a' : expr) (b' : R) :
  tape_reading env a b -> tape_reading env a' b' ->
  tape_reading env (sadd a a') (sadd b b').
Proof. intros Ha Ha'. tape_op. Qed.

Lemma tape_sub (a : expr) (b : R) (a' : expr) (b' : R) :
  tape_reading env a b -> tape_reading env a' b' ->
  tape_reading env (ssub a a') (ssub b b').
Proof. intros Ha Ha'. tape_op. Qed.

Lemma tape_mul (a : expr) (b : R) (a' : expr) (b' : R) :
  tape_reading env a b -> tape_reading env a' b' ->
  tape_reading env (smul a a') (smul b b').
Proof. intros Ha Ha'. tape_op. Qed.

Lemma tape_div_Lf (a : expr) (b : R) :
  tape_reading env a b -> tape_reading env (sdiv a Lf) (sdiv b Lf).
Proof.
  intros [Hd Ha]. unfold tape_reading. cbn [sdiv expr_scalar divisors denote].
  rewrite Ha, denote_Lf, !bind_Some_l. split.
  - constructor; [reflexivity|]. rewrite Forall_app. split; [assumption|].
    constructor.
  - destruct (Req_dec_T Lf_spec 0) as [E|_];
      [now destruct Lf_spec_nonzero|reflexivity].
Qed.

Lemma tape_pow (a : expr) (b : R) (n : Z) :
  tape_reading env a b -> tape_reading env (spow a n) (spow b n).
Proof. intros Ha. tape_op. Qed.

Lemma tape_sin (a : expr) (b : R) :
  tape_reading env a b -> tape_reading env (ssin a) (ssin b).
Proof. intros Ha. tape_op. Qed.

Lemma tape_cos (a : expr) (b : R) :
  tape_reading env a b -> tape_reading env (scos a) (scos b).
Proof. intros Ha. tape_op. Qed.

Lemma tape_atan (a : expr) (b : R) :
  tape_reading env a b -> tape_reading env (satan a) (satan b).
Proof. intros Ha. tape_op. Qed.
End TapeReading.

Lemma length_independent (n : Z) :
  0 <= n -> Z.of_nat (length (independent n)) = n.
Proof.
  intros Hn. unfold independent. rewrite length_fmap, length_seqZ. lia.
Qed.

Lemma independent_reading (vars : list R) :
  Forall2 (tape_reading (vat vars))
    (independent (Z.of_nat (length vars))) vars.
Proof.
  apply Forall2_same_length_lookup_2.
  - apply Nat2Z.inj. apply length_independent. lia.
  - intros i e r He Hr. unfold independent in He.
    rewrite list_lookup_fmap in He.
    pose proof (lookup_lt_Some _ _ _ Hr) as Hi.
    rewrite lookup_seqZ_lt in He by lia. cbn in He.
    injection He as <-. split; [constructor|].
    cbn [denote]. f_equal. unfold vat, vget.
    rewrite decide_True by lia.
    replace (Z.to_nat (0 + Z.of_nat i)) with i by lia.
    now rewrite Hr.
Qed.

Lemma coefficients_reading (env : Z -> R) (qs : list Q) :
  Forall2 (tape_reading env) (ELit <$> qs) (Q2R <$> qs).
Proof.
  apply Forall2_fmap_2. induction qs as [|q qs IH]; constructor.
  - apply (tape_lit env q).
  - exact IH.
Qed.

(** C9: in the operations an evaluation of the cost and of the constraint
    residuals records, every division has the divisor [Lf]; [Lf] is the
    nonzero constant 2.67; and the evaluation over the real numbers at any
    candidate vector succeeds with the values of the recorded
    expressions, none of which divides by zero. *)
Theorem C9_divisions_only_by_Lf (N : Z) (qs : list Q) :
  horizon N -> (4 <= length qs)%nat ->
  (forall env, denote env Lf = Some Lf_spec) /\
  Lf_spec = 2.67%R /\ Lf_spec <> 0%R /\
  exists tape,
    fg_eval N (ELit <$> qs) (vfill (1 + n_constraints N) (EInt 0))
      (independent (n_vars N)) = Some tape /\
    Forall (fun e => Forall (fun d => d = Lf) (divisors e)) tape /\
    forall vars : list R, Z.of_nat (length vars) = n_vars N ->
      exists fg',
        fg_eval N (Q2R <$> qs) (vfill (1 + n_constraints N) 0%R) vars
          = Some fg' /\
        Forall2 (fun e r => denote (vat vars) e = Some r) tape fg'.
Proof.
  intros HN Hqs.
  assert (HB : 2 <= N /\ 8 * N <= 2 ^ 64) by exact HN.
  assert (Hnv : 0 <= n_vars N) by (layout N; lia).
  assert (Hnc : 0 <= 1 + n_constraints N) by (layout N; lia).
  split; [intros env; reflexivity|]. split; [reflexivity|].
  split; [exact Lf_spec_nonzero|].
  destruct (fg_eval_total N (ELit <$> qs) (vfill (1 + n_constraints N) (EInt 0))
              (independent (n_vars N)) HN) as (tape & E & _).
  { split; [now apply length_independent|now apply length_vfill]. }
  { now rewrite length_fmap. }
  assert (Hsim : forall vars : list R, Z.of_nat (length vars) = n_vars N ->
            exists fg',
              fg_eval N (Q2R <$> qs) (vfill (1 + n_constraints N) 0%R) vars
                = Some fg' /\
              Forall2 (tape_reading (vat vars)) tape fg').
  { intros vars Hv.
    pose proof (fg_eval_sim (tape_reading (vat vars))
      (tape_int _) (tape_lit _) (tape_add _) (tape_sub _) (tape_mul _)
      (tape_div_Lf _) (tape_pow _) (tape_sin _) (tape_cos _) (tape_atan _)
      N (ELit <$> qs) (independent (n_vars N)) (Q2R <$> qs) vars
      (coefficients_reading _ qs)) as Hs.
    rewrite <- Hv in Hs at 1.
    specialize (Hs (independent_reading vars)
      (vfill (1 + n_constraints N) (EInt 0)) (vfill (1 + n_constraints N) 0%R)
      (Forall2_replicate _ _ _ _ (tape_int _ 0))).
    rewrite E in Hs. inversion Hs as [t fg' Hrel Et Ef|]; subst.
    exists fg'. split; [reflexivity|exact Hrel]. }
  exists tape. split; [exact E|]. split.
  - destruct (Hsim (vfill (n_vars N) 0%R)) as (fg' & _ & Hrel);
      [now apply length_vfill|].
    clear -Hrel. induction Hrel as [|e r t fg' [Hd _] _ IH]; constructor;
      assumption.
  - intros vars Hv. destruct (Hsim vars Hv) as (fg' & E' & Hrel).
    exists fg'. split; [exact E'|].
    clear -Hrel. induction Hrel as [|e r t g [_ Hden] _ IH]; constructor;
      assumption.
Qed.

Lemma C9_divisions_only_by_Lf_witness :
  horizon N_source /\ (4 <= length [1; 2; 3; 4]%Q)%nat /\
  (forall env, denote env Lf = Some Lf_spec) /\
  Lf_spec = 2.67%R /\ Lf_spec <> 0%R /\
  exists tape,
    fg_eval N_source (ELit <$> [1; 2; 3; 4]%Q)
      (vfill (1 + n_constraints N_source) (EInt 0))
      (independent (n_vars N_source)) = Some tape /\
    Forall (fun e => Forall (fun d => d = Lf) (divisors e)) tape /\
    forall vars : list R, Z.of_nat (length vars) = n_vars N_source ->
      exists fg',
        fg_eval N_source (Q2R <$> [1; 2; 3; 4]%Q)
          (vfill (1 + n_constraints N_source) 0%R) vars = Some fg' /\
        Forall2 (fun e r => denote (vat vars) e = Some r) tape fg'.
Proof.
  split; [sample_side|]. split; [sample_side|].
  apply (C9_divisions_only_by_Lf N_source [1; 2; 3; 4]%Q); sample_side.
Defined.

(** * Further properties of the formulator and the driver *)

(** ** Vectors are determined by their entries *)

Lemma vat_ext {T : Type} `{Scalar T} (v w : list T) :
  length v = length w ->
  (forall j, 0 <= j < Z.of_nat (length v) -> vat v j = vat w j) ->
  v = w.
Proof.
  intros Hlen Hat. apply list_eq. intros i.
  destruct (decide (i < length v)%nat) as [Hi|Hi].
  - destruct (lookup_lt_is_Some_2 v i Hi) as [x Hx].
    destruct (lookup_lt_is_Some_2 w i) as [y Hy]; [lia|].
    specialize (Hat (Z.of_nat i)). unfold vat, vget in Hat.
    rewrite !decide_True, !Nat2Z.id, Hx, Hy in Hat by lia.
    rewrite Hx, Hy. f_equal. apply Hat. lia.
  - rewrite !lookup_ge_None_2 by lia. reflexivity.
Qed.

(** ** Every entry of [fg] is assigned *)

Lemma fg_expected_unique {T : Type} `{Scalar T} (N : Z)
    (coeffs vars fg1 fg2 : list T) :
  horizon N ->
  fg_expected N coeffs vars fg1 -> fg_expected N coeffs vars fg2 ->
  fg1 = fg2.
Proof.
  intros HN (L1 & C1 & I1 & R1) (L2 & C2 & I2 & R2).
  assert (HB : 2 <= N /\ 8 * N <= 2 ^ 64) by exact HN.
  apply vat_ext; [lia|]. intros j Hj. rewrite L1 in Hj.
  unfold residuals_at in R1, R2. layout N.
  destruct I1 as (A0 & A1 & A2 & A3 & A4 & A5).
  destruct I2 as (B0 & B1 & B2 & B3 & B4 & B5).
  destruct (decide (j = 0)) as [->|]; [congruence|].
  assert (Hres : forall i, 0 <= i < N - 1 ->
            vat fg1 (2 + 0 + i) = vat fg2 (2 + 0 + i) /\
            vat fg1 (2 + N + i) = vat fg2 (2 + N + i) /\
            vat fg1 (2 + 2 * N + i) = vat fg2 (2 + 2 * N + i) /\
            vat fg1 (2 + 3 * N + i) = vat fg2 (2 + 3 * N + i) /\
            vat fg1 (2 + 4 * N + i) = vat fg2 (2 + 4 * N + i) /\
            vat fg1 (2 + 5 * N + i) = vat fg2 (2 + 5 * N + i)).
  { intros i Hi.
    destruct (R1 i Hi) as (-> & -> & -> & -> & -> & ->).
    destruct (R2 i Hi) as (-> & -> & -> & -> & -> & ->).
    repeat split; reflexivity. }
  clear R1 R2.
  destruct (decide (j = 1 + 0)) as [->|]; [congruence|].
  destruct (decide (j < 1 + N)).
  { replace j with (2 + 0 + (j - 2)) by lia. apply Hres. lia. }
  destruct (decide (j = 1 + N)) as [->|]; [congruence|].
  destruct (decide (j < 1 + 2 * N)).
  { replace j with (2 + N + (j - 2 - N)) by lia. apply Hres. lia. }
  destruct (decide (j = 1 + 2 * N)) as [->|]; [congruence|].
  destruct (decide (j < 1 + 3 * N)).
  { replace j with (2 + 2 * N + (j - 2 - 2 * N)) by lia. apply Hres. lia. }
  destruct (decide (j = 1 + 3 * N)) as [->|]; [congruence|].
  destruct (decide (j < 1 + 4 * N)).
  { replace j with (2 + 3 * N + (j - 2 - 3 * N)) by lia. apply Hres. lia. }
  destruct (decide (j = 1 + 4 * N)) as [->|]; [congruence|].
  destruct (decide (j < 1 + 5 * N)).
  { replace j with (2 + 4 * N + (j - 2 - 4 * N)) by lia. apply Hres. lia. }
  destruct (decide (j = 1 + 5 * N)) as [->|]; [congruence|].
  replace j with (2 + 5 * N + (j - 2 - 5 * N)) by lia. apply Hres. lia.
Qed.

(** X1: an evaluation assigns every entry of [fg]: on vectors of the
    solver's sizes the result is the same whatever [fg] held before. *)
Theorem X1_fg_fully_assigned {T : Type} `{Scalar T} (N : Z)
    (coeffs fg1 fg2 vars : list T) :
  horizon N -> sized N fg1 vars -> sized N fg2 vars ->
  (4 <= length coeffs)%nat ->
  exists fg', fg_eval N coeffs fg1 vars = Some fg' /\
    fg_eval N coeffs fg2 vars = Some fg'.
Proof.
  intros HN Hs1 Hs2 Hco.
  destruct (fg_eval_total N coeffs fg1 vars HN Hs1 Hco) as (g1 & E1 & X1).
  destruct (fg_eval_total N coeffs fg2 vars HN Hs2 Hco) as (g2 & E2 & X2).
  exists g1. split; [exact E1|]. rewrite E2. f_equal. symmetry.
  now apply (fg_expected_unique N coeffs vars).
Qed.

Lemma X1_fg_fully_assigned_witness :
  horizon N_source /\ sized N_source sample_fg sample_vars /\
  sized N_source (vfill (1 + n_constraints N_source) 1%R) sample_vars /\
  (4 <= length sample_coeffs)%nat /\
  exists fg', fg_eval N_source sample_coeffs sample_fg sample_vars = Some fg' /\
    fg_eval N_source sample_coeffs (vfill (1 + n_constraints N_source) 1%R)
      sample_vars = Some fg'.
Proof.
  split; [sample_side|]. split; [sample_side|]. split; [sample_side|].
  split; [sample_side|].
  apply (X1_fg_fully_assigned N_source sample_coeffs sample_fg
           (vfill (1 + n_constraints N_source) 1%R) sample_vars); sample_side.
Defined.

(** ** No uninitialised entry reaches the solver *)

Lemma pinned_or_agree {T : Type} `{Scalar T} (N : Z) (s1 s2 : list T)
    (other : T) (j : Z) :
  (forall c, 0 <= c < 6 -> vat s1 c = vat s2 c) ->
  pinned_or N s1 other j = pinned_or N s2 other j.
Proof.
  intros Hs. unfold pinned_or, state_component.
  repeat case_decide; try reflexivity; apply Hs; lia.
Qed.

Lemma problem_expected_unique {T : Type} `{Scalar T} (N : Z)
    (s1 s2 : list T) (p1 p2 : nlp T) :
  horizon N -> (forall c, 0 <= c < 6 -> vat s1 c = vat s2 c) ->
  problem_expected N s1 p1 -> problem_expected N s2 p2 -> p1 = p2.
Proof.
  intros HN Hs ((Lv1 & Ll1 & Lu1 & Lcl1 & Lcu1) & I1 & (V1 & W1 & A1) & C1)
    ((Lv2 & Ll2 & Lu2 & Lcl2 & Lcu2) & I2 & (V2 & W2 & A2) & C2).
  assert (HB : 2 <= N /\ 8 * N <= 2 ^ 64) by exact HN.
  unfold initial_point_expected in I1, I2.
  unfold constraint_bounds_expected in C1, C2.
  destruct p1 as [v1 l1 u1 cl1 cu1], p2 as [v2 l2 u2 cl2 cu2].
  cbn [nlp_vars vars_lowerbound vars_upperbound constraints_lowerbound
       constraints_upperbound] in *.
  assert (Hbounds : forall j, 0 <= j < n_vars N ->
            vat l1 j = vat l2 j /\ vat u1 j = vat u2 j).
  { intros j Hj. layout N.
    destruct (decide (j < 6 * N)).
    - destruct (V1 j) as [-> ->]; [lia|]. destruct (V2 j) as [-> ->]; [lia|].
      split; reflexivity.
    - destruct (decide (j < 7 * N - 1)).
      + destruct (W1 j) as [-> ->]; [lia|]. destruct (W2 j) as [-> ->]; [lia|].
        split; reflexivity.
      + destruct (A1 j) as [-> ->]; [lia|]. destruct (A2 j) as [-> ->]; [lia|].
        split; reflexivity. }
  f_equal; apply vat_ext; try lia; intros j Hj.
  - rewrite I1, I2 by lia. now apply pinned_or_agree.
  - apply Hbounds. lia.
  - apply Hbounds. lia.
  - destruct (C1 j) as [-> _]; [lia|]. destruct (C2 j) as [-> _]; [lia|].
    now apply pinned_or_agree.
  - destruct (C1 j) as [_ ->]; [lia|]. destruct (C2 j) as [_ ->]; [lia|].
    now apply pinned_or_agree.
Qed.

(** X2: the problem the driver hands to the solver is a function of the
    first six entries of the state alone: it does not depend on what the
    vectors held when they were allocated, nor on entries of the state
    beyond the sixth. *)
Theorem X2_problem_from_six_entries {T : Type} `{Scalar T} (N : Z)
    (u1 u2 : T) (s1 s2 : list T) :
  horizon N -> (6 <= length s1)%nat -> (6 <= length s2)%nat ->
  (forall c, 0 <= c < 6 -> vat s1 c = vat s2 c) ->
  exists p, Solve_problem N u1 s1 = Some p /\ Solve_problem N u2 s2 = Some p.
Proof.
  intros HN H1 H2 Hs.
  destruct (Solve_problem_total N u1 s1 HN H1) as (p1 & E1 & X1).
  destruct (Solve_problem_total N u2 s2 HN H2) as (p2 & E2 & X2).
  exists p1. split; [exact E1|]. rewrite E2. f_equal. symmetry.
  now apply (problem_expected_unique N s1 s2).
Qed.

Lemma X2_problem_from_six_entries_witness :
  horizon N_source /\ (6 <= length sample_state)%nat /\
  (6 <= length (sample_state ++ [7%R]))%nat /\
  (forall c, 0 <= c < 6 ->
     vat sample_state c = vat (sample_state ++ [7%R]) c) /\
  exists p, Solve_problem N_source 0%R sample_state = Some p /\
    Solve_problem N_source 9%R (sample_state ++ [7%R]) = Some p.
Proof.
  assert (Hs : forall c, 0 <= c < 6 ->
            vat sample_state c = vat (sample_state ++ [7%R]) c).
  { intros c Hc.
    assert (Hc6 : c = 0 \/ c = 1 \/ c = 2 \/ c = 3 \/ c = 4 \/ c = 5) by lia.
    destruct Hc6 as [ -> | [ -> | [ -> | [ -> | [ -> | -> ] ] ] ] ];
      reflexivity. }
  split; [sample_side|]. split; [sample_side|]. split; [sample_side|].
  split; [exact Hs|].
  apply (X2_problem_from_six_entries N_source 0%R 9%R sample_state
           (sample_state ++ [7%R])); [sample_side|sample_side|sample_side|].
  exact Hs.
Defined.

(** ** The state vector *)

(** One read of a chain: it is either out of bounds, and the chain has no
    result, or it yields the entry. *)
Ltac read_or_fail v k :=
  destruct (decide (Z.of_nat (length v) <= k));
    [rewrite (vget_None v k) by lia; apply bind_None_l|];
  rewrite (vget_vat v k), bind_Some_l by lia.

Lemma Solve_problem_short {T : Type} `{Scalar T} (N : Z) (uninit : T)
    (state : list T) :
  (length state < 6)%nat -> Solve_problem N uninit state = None.
Proof.
  intros Hshort. unfold Solve_problem. cbv zeta.
  match goal with
  | |- mbind _ ?m = None => destruct m; [rewrite bind_Some_l|apply bind_None_l]
  end.
  read_or_fail state 0. read_or_fail state 1. read_or_fail state 2.
  read_or_fail state 3. read_or_fail state 4.
  rewrite (vget_None state 5) by lia. apply bind_None_l.
Qed.

(** X3: [Solve] reads [state[0]] to [state[5]]: the preparation of the
    problem is defined exactly when the state has at least six entries,
    and with a shorter state [Solve] runs into an out-of-bounds read
    whatever the solver and the coefficients are. *)
Theorem X3_state_needs_six_entries {T : Type} `{Scalar T} (N : Z) (uninit : T)
    (ipopt_solve : solver T) (state coeffs : list T) :
  horizon N ->
  (is_Some (Solve_problem N uninit state) <-> (6 <= length state)%nat) /\
  ((length state < 6)%nat -> Solve N uninit ipopt_solve state coeffs = None).
Proof.
  intros HN. split; [split|].
  - intros [p E]. destruct (le_lt_dec 6 (length state)) as [|Hshort];
      [assumption|].
    rewrite Solve_problem_short in E by assumption. discriminate.
  - intros Hst. destruct (Solve_problem_total N uninit state HN Hst)
      as (p & E & _). now exists p.
  - intros Hshort. unfold Solve.
    rewrite Solve_problem_short by assumption. apply bind_None_l.
Qed.

Lemma X3_state_needs_six_entries_witness :
  horizon N_source /\
  (is_Some (Solve_problem N_source 0%R [1; 2; 3; 4; 5]%R)
   <-> (6 <= length [1; 2; 3; 4; 5]%R)%nat) /\
  ((length [1; 2; 3; 4; 5]%R < 6)%nat ->
   Solve N_source 0%R (stub_solver success 0%R) [1; 2; 3; 4; 5]%R
     sample_coeffs = None).
Proof.
  split; [sample_side|].
  apply (X3_state_needs_six_entries N_source 0%R (stub_solver success 0%R)
           [1; 2; 3; 4; 5]%R sample_coeffs); sample_side.
Defined.

(** ** The solution vector *)

(** X4: the extraction reads the solution up to index [a_start]: it is
    defined exactly when the solution vector has at least [7N] entries,
    and then it is the command pair followed by the trajectory; a shorter
    solution vector makes [Solve] read out of bounds. *)
Theorem X4_solution_needs_7N_entries {T : Type} `{Scalar T} (N : Z)
    (uninit : T) (ipopt_solve : solver T) (state coeffs x : list T) :
  horizon N ->
  (is_Some (Solve_result N x) <-> 7 * N <= Z.of_nat (length x)) /\
  (7 * N <= Z.of_nat (length x) -> Solve_result N x = Some (result_spec N x)) /\
  (forall p, Solve_problem N uninit state = Some p ->
     Z.of_nat (length (sol_x (Solve_call N ipopt_solve coeffs p))) < 7 * N ->
     Solve N uninit ipopt_solve state coeffs = None).
Proof.
  intros HN.
  assert (HB : 2 <= N /\ 8 * N <= 2 ^ 64) by exact HN.
  assert (Ha : a_start N = 7 * N - 1) by (now layout N).
  assert (Hshort : forall y : list T,
            Z.of_nat (length y) < 7 * N -> Solve_result N y = None).
  { intros y Hy. unfold Solve_result.
    destruct (vget y (delta_start N)); [rewrite bind_Some_l|apply bind_None_l].
    rewrite (vget_None y (a_start N)) by lia. apply bind_None_l. }
  split; [split|split].
  - intros [r E]. destruct (Z_lt_le_dec (Z.of_nat (length x)) (7 * N)) as [Hlt|];
      [|assumption].
    rewrite Hshort in E by assumption. discriminate.
  - intros Hx. rewrite Solve_result_enough by (exact HN || lia). now eexists.
  - intros Hx. apply Solve_result_enough; [exact HN|lia].
  - intros p E Hx. unfold Solve. rewrite E, bind_Some_l. cbv zeta.
    rewrite Hshort by assumption. apply bind_None_l.
Qed.

Lemma X4_solution_needs_7N_entries_witness :
  horizon N_source /\
  Solve_result N_source (vfill 105 0%R)
  = Some (result_spec N_source (vfill 105 0%R)) /\
  ~ is_Some (Solve_result N_source (vfill 104 0%R)) /\
  Solve N_source 0%R (empty_solver 0%R) sample_state sample_coeffs = None.
Proof.
  split; [sample_side|].
  destruct (X4_solution_needs_7N_entries N_source 0%R (empty_solver 0%R)
              sample_state sample_coeffs (vfill 105 0%R))
    as (_ & Hok & Hfail); [sample_side|].
  destruct (X4_solution_needs_7N_entries N_source 0%R (empty_solver 0%R)
              sample_state sample_coeffs (vfill 104 0%R))
    as (Hiff & _); [sample_side|].
  split; [apply Hok; vm_compute; discriminate|]. split.
  - intros Hsome. apply Hiff in Hsome. vm_compute in Hsome. now apply Hsome.
  - destruct (Solve_problem_total N_source 0%R sample_state)
      as (p & E & _); [sample_side|sample_side|].
    apply (Hfail p E). vm_compute. reflexivity.
Defined.

(** ** The box of the variables *)

Lemma zero_real : Q2R 0.0 = 0%R.
Proof. unfold Q2R. cbn [Qnum Qden]. lra. Qed.

Lemma big_real_bounds : (- 1e19 <= 0 <= 1e19)%R.
Proof.
  change (- 1e19)%R with (- 1 * 10000000000000000000)%R.
  change (1e19)%R with (1 * 10000000000000000000)%R. lra.
Qed.

Lemma pi_eighth_bounds : (- (PI / 8) <= 0 <= PI / 8)%R.
Proof. pose proof PI_RGT_0. lra. Qed.

(** The bounds of the variables over the real numbers. *)
Lemma variable_bounds_real (N : Z) (state : list R) (p : nlp R) :
  horizon N -> problem_expected N state p ->
  (forall j, 0 <= j < 6 * N ->
     vat (vars_lowerbound p) j = (- 1e19)%R /\
     vat (vars_upperbound p) j = 1e19%R) /\
  (forall j, 6 * N <= j < 7 * N - 1 ->
     vat (vars_lowerbound p) j = (- (PI / 8))%R /\
     vat (vars_upperbound p) j = (PI / 8)%R) /\
  (forall j, 7 * N - 1 <= j < 8 * N - 2 ->
     vat (vars_lowerbound p) j = (- 1)%R /\
     vat (vars_upperbound p) j = 1%R).
Proof.
  intros HN (_ & _ & (B1 & B2 & B3) & _). layout N.
  split; [|split]; intros j Hj.
  - destruct (B1 j) as [-> ->]; [lia|]. real_ops.
    split; [apply neg_big_real|apply big_real].
  - destruct (B2 j) as [-> ->]; [lia|]. real_ops.
    split; [apply neg_div|reflexivity].
  - destruct (B3 j) as [-> ->]; [lia|]. real_ops.
    split; [apply neg_one_real|apply one_real].
Qed.

Lemma initial_point_in_box (N : Z) (state : list R) (p : nlp R) :
  horizon N -> problem_expected N state p ->
  (forall c, 0 <= c < 6 -> (- 1e19 <= vat state c <= 1e19)%R) ->
  forall j, 0 <= j < n_vars N ->
    (vat (vars_lowerbound p) j <= vat (nlp_vars p) j
     <= vat (vars_upperbound p) j)%R.
Proof.
  intros HN Hp Hst j Hj.
  destruct (variable_bounds_real N state p HN Hp) as (B1 & B2 & B3).
  destruct Hp as (_ & HI & _).
  unfold initial_point_expected, pinned_or, state_component in HI.
  rewrite (HI j Hj). clear HI. layout N. real_ops. rewrite zero_real.
  destruct (decide (j < 6 * N)).
  - destruct (B1 j) as [-> ->]; [lia|].
    repeat case_decide; try (apply Hst; lia). apply big_real_bounds.
  - repeat case_decide; try lia.
    destruct (decide (j < 7 * N - 1)).
    + destruct (B2 j) as [-> ->]; [lia|]. apply pi_eighth_bounds.
    + destruct (B3 j) as [-> ->]; [lia|]. lra.
Qed.

Lemma sample_state_in_box (c : Z) :
  0 <= c < 6 -> (- 1e19 <= vat sample_state c <= 1e19)%R.
Proof.
  intros Hc.
  change (- 1e19)%R with (- 1 * 10000000000000000000)%R.
  change (1e19)%R with (1 * 10000000000000000000)%R.
  assert (Hc6 : c = 0 \/ c = 1 \/ c = 2 \/ c = 3 \/ c = 4 \/ c = 5) by lia.
  destruct Hc6 as [ -> | [ -> | [ -> | [ -> | [ -> | -> ] ] ] ] ].
  - change (vat sample_state 0) with 1%R. lra.
  - change (vat sample_state 1) with 2%R. lra.
  - change (vat sample_state 2) with 3%R. lra.
  - change (vat sample_state 3) with 4%R. lra.
  - change (vat sample_state 4) with 5%R. lra.
  - change (vat sample_state 5) with 6%R. lra.
Qed.

(** X5: the two commands [Solve] returns are the solution's entries at
    [delta_start] and [a_start], whose bounds are [-pi/8, pi/8] and
    [-1, 1]: when the solver's solution has the size of the initial point
    and respects the bounds it was given, the steering command lies in
    [-pi/8, pi/8] and the acceleration command in [-1, 1]. *)
Theorem X5_commands_within_bounds (N : Z) (uninit : R)
    (ipopt_solve : solver R) (state coeffs : list R) :
  horizon N -> (6 <= length state)%nat ->
  (forall p, Solve_problem N uninit state = Some p ->
     length (sol_x (Solve_call N ipopt_solve coeffs p)) = length (nlp_vars p) /\
     forall j, 0 <= j < Z.of_nat (length (nlp_vars p)) ->
       (vat (vars_lowerbound p) j
        <= vat (sol_x (Solve_call N ipopt_solve coeffs p)) j
        <= vat (vars_upperbound p) j)%R) ->
  exists run, Solve N uninit ipopt_solve state coeffs = Some run /\
    (- (PI / 8) <= vat (result run) 0 <= PI / 8)%R /\
    (- 1 <= vat (result run) 1 <= 1)%R.
Proof.
  intros HN Hst Hsol.
  assert (HB : 2 <= N /\ 8 * N <= 2 ^ 64) by exact HN.
  destruct (Solve_problem_total N uninit state HN Hst) as (p & E & Hp).
  destruct (Hsol p E) as (Hlen & Hbox).
  destruct (variable_bounds_real N state p HN Hp) as (_ & B2 & B3).
  destruct Hp as ((Lv & _) & _).
  eexists. split.
  - apply (Solve_total N uninit ipopt_solve state coeffs p HN E). lia.
  - cbn [result]. unfold result_spec. layout N.
    change (vat (?a :: ?l) 0) with a.
    change (vat (?a :: ?b :: ?l) 1) with b. cbn [app].
    change (vat (?a :: ?l) 0) with a.
    change (vat (?a :: ?b :: ?l) 1) with b.
    split.
    + destruct (B2 (6 * N)) as [<- <-]; [lia|]. apply Hbox. lia.
    + destruct (B3 (7 * N - 1)) as [<- <-]; [lia|]. apply Hbox. lia.
Qed.

Lemma X5_commands_within_bounds_witness :
  horizon N_source /\ (6 <= length sample_state)%nat /\
  exists run,
    Solve N_source 0%R (stub_solver success 0%R) sample_state sample_coeffs
      = Some run /\
    (- (PI / 8) <= vat (result run) 0 <= PI / 8)%R /\
    (- 1 <= vat (result run) 1 <= 1)%R.
Proof.
  split; [sample_side|]. split; [sample_side|].
  apply (X5_commands_within_bounds N_source 0%R (stub_solver success 0%R)
           sample_state sample_coeffs); [sample_side|sample_side|].
  intros p E. split; [reflexivity|]. intros j Hj.
  destruct (Solve_problem_total N_source 0%R sample_state)
    as (q & Eq & Hq); [sample_side|sample_side|].
  rewrite E in Eq. injection Eq as <-.
  apply (initial_point_in_box N_source sample_state p);
    [sample_side|exact Hq|exact sample_state_in_box|].
  destruct Hq as ((Lv & _) & _). lia.
Defined.

(** X8: the point at which the driver starts the solver is feasible for
    the box and for the pinned constraints: when the six state values lie
    within [-1e19, 1e19], every entry of the initial point lies between
    its lower and its upper bound, and the six initial-state residuals
    of the formulator at that point equal both of their bounds. *)
Theorem X8_initial_point_feasible (N : Z) (uninit : R)
    (state coeffs fg : list R) :
  horizon N -> (6 <= length state)%nat ->
  (forall c, 0 <= c < 6 -> (- 1e19 <= vat state c <= 1e19)%R) ->
  (4 <= length coeffs)%nat -> Z.of_nat (length fg) = 1 + n_constraints N ->
  exists p fg',
    Solve_problem N uninit state = Some p /\
    (forall j, 0 <= j < n_vars N ->
       (vat (vars_lowerbound p) j <= vat (nlp_vars p) j
        <= vat (vars_upperbound p) j)%R) /\
    fg_eval N coeffs fg (nlp_vars p) = Some fg' /\
    (forall c, 0 <= c < 6 ->
       vat (constraints_lowerbound p) (c * N) = vat fg' (1 + c * N) /\
       vat (constraints_upperbound p) (c * N) = vat fg' (1 + c * N)).
Proof.
  intros HN Hst Hbox Hco Hfg.
  assert (HB : 2 <= N /\ 8 * N <= 2 ^ 64) by exact HN.
  destruct (Solve_problem_total N uninit state HN Hst) as (p & E & Hp).
  pose proof (initial_point_in_box N state p HN Hp Hbox) as Hin.
  destruct Hp as ((Lv & _) & HI & _ & HC).
  destruct (fg_initial_block N coeffs fg (nlp_vars p) HN (conj Lv Hfg) Hco)
    as (fg' & E' & Hblock).
  exists p, fg'. split; [exact E|]. split; [exact Hin|]. split; [exact E'|].
  intros c Hc. rewrite (Hblock c Hc).
  unfold initial_point_expected in HI.
  unfold constraint_bounds_expected in HC.
  assert (Hj : 0 <= c * N < 6 * N) by nia.
  layout N. rewrite (HI (c * N)) by lia.
  destruct (HC (c * N) Hj) as [-> ->].
  unfold pinned_or.
  assert (Hsome : exists k, state_component N (c * N) = Some k).
  { unfold state_component. layout N.
    destruct (six_cases c Hc) as [ -> | [ -> | [ -> | [ -> | [ -> | -> ] ] ] ] ];
      repeat case_decide; try lia; eauto. }
  destruct Hsome as [k ->]. split; reflexivity.
Qed.

Lemma X8_initial_point_feasible_witness :
  horizon N_source /\ (6 <= length sample_state)%nat /\
  (forall c, 0 <= c < 6 -> (- 1e19 <= vat sample_state c <= 1e19)%R) /\
  (4 <= length sample_coeffs)%nat /\
  Z.of_nat (length sample_fg) = 1 + n_constraints N_source /\
  exists p fg',
    Solve_problem N_source 0%R sample_state = Some p /\
    (forall j, 0 <= j < n_vars N_source ->
       (vat (vars_lowerbound p) j <= vat (nlp_vars p) j
        <= vat (vars_upperbound p) j)%R) /\
    fg_eval N_source sample_coeffs sample_fg (nlp_vars p) = Some fg' /\
    (forall c, 0 <= c < 6 ->
       vat (constraints_lowerbound p) (c * N_source)
         = vat fg' (1 + c * N_source) /\
       vat (constraints_upperbound p) (c * N_source)
         = vat fg' (1 + c * N_source)).
Proof.
  split; [sample_side|]. split; [sample_side|].
  split; [exact sample_state_in_box|]. split; [sample_side|].
  split; [reflexivity|].
  apply (X8_initial_point_feasible N_source 0%R sample_state sample_coeffs
           sample_fg);
    [sample_side|sample_side|exact sample_state_in_box|sample_side
    |reflexivity].
Defined.

(** ** The sign of the cost *)

Lemma Rsum_nonneg (n : nat) (g : Z -> R) :
  (forall i, 0 <= i < Z.of_nat n -> (0 <= g i)%R) -> (0 <= Rsum n g)%R.
Proof.
  induction n as [|n IH]; intros Hg; cbn [Rsum].
  - lra.
  - assert (0 <= Rsum n g)%R by (apply IH; intros i Hi; apply Hg; lia).
    assert (0 <= g (Z.of_nat n))%R by (apply Hg; lia). lra.
Qed.

Lemma Rsum_zero (n : nat) (g : Z -> R) :
  (forall i, 0 <= i < Z.of_nat n -> g i = 0%R) -> Rsum n g = 0%R.
Proof.
  induction n as [|n IH]; intros Hg; cbn [Rsum].
  - reflexivity.
  - rewrite IH by (intros i Hi; apply Hg; lia). rewrite Hg by lia. lra.
Qed.

Lemma cost_spec_sign (N : Z) (vars : list R) :
  2 <= N ->
  (0 <= cost_spec N vars)%R /\
  ((forall i, 0 <= i < N ->
      state_cte N vars i = 0%R /\ state_epsi N vars i = 0%R /\
      state_v N vars i = 40%R) ->
   (forall i, 0 <= i < N - 1 ->
      control_delta N vars i = 0%R /\ control_a N vars i = 0%R) ->
   cost_spec N vars = 0%R).
Proof.
  intros HN. unfold cost_spec.
  set (gt := fun i : Z =>
    (3000 * (state_cte N vars i - 0) ^ 2 + 500 * (state_epsi N vars i - 0) ^ 2
     + 1 * (state_v N vars i - 40) ^ 2)%R).
  set (ge := fun i : Z =>
    (1 * control_delta N vars i ^ 2 + 1 * control_a N vars i ^ 2)%R).
  set (gs := fun i : Z =>
    (200 * (control_delta N vars (i + 1) - control_delta N vars i) ^ 2
     + 1 * (control_a N vars (i + 1) - control_a N vars i) ^ 2)%R).
  change (tracking_cost N vars) with (Rsum (Z.to_nat N) gt).
  change (effort_cost N vars) with (Rsum (Z.to_nat (N - 1)) ge).
  change (smoothness_cost N vars) with (Rsum (Z.to_nat (N - 2)) gs).
  assert (Pt : forall i, (0 <= gt i)%R).
  { intros i. unfold gt. pose proof (pow2_ge_0 (state_cte N vars i - 0)).
    pose proof (pow2_ge_0 (state_epsi N vars i - 0)).
    pose proof (pow2_ge_0 (state_v N vars i - 40)). lra. }
  assert (Pe : forall i, (0 <= ge i)%R).
  { intros i. unfold ge. pose proof (pow2_ge_0 (control_delta N vars i)).
    pose proof (pow2_ge_0 (control_a N vars i)). lra. }
  assert (Ps : forall i, (0 <= gs i)%R).
  { intros i. unfold gs.
    pose proof (pow2_ge_0 (control_delta N vars (i + 1) - control_delta N vars i)).
    pose proof (pow2_ge_0 (control_a N vars (i + 1) - control_a N vars i)).
    lra. }
  pose proof (Rsum_nonneg (Z.to_nat N) gt (fun i _ => Pt i)) as St.
  pose proof (Rsum_nonneg (Z.to_nat (N - 1)) ge (fun i _ => Pe i)) as Se.
  pose proof (Rsum_nonneg (Z.to_nat (N - 2)) gs (fun i _ => Ps i)) as Ss.
  split; [lra|]. intros Ht He.
  rewrite (Rsum_zero (Z.to_nat N) gt), (Rsum_zero (Z.to_nat (N - 1)) ge),
    (Rsum_zero (Z.to_nat (N - 2)) gs); [lra| | |].
  - intros i Hi. unfold gs.
    destruct (He i) as [-> ->]; [lia|].
    destruct (He (i + 1)) as [-> ->]; [lia|]. ring.
  - intros i Hi. unfold ge. destruct (He i) as [-> ->]; [lia|]. ring.
  - intros i Hi. unfold gt. destruct (Ht i) as (-> & -> & ->); [lia|]. ring.
Qed.

(** The cruise candidate is at the reference. *)
Lemma cruise_tracks_reference (i : Z) :
  0 <= i < N_source ->
  state_cte N_source cruise_vars i = 0%R /\
  state_epsi N_source cruise_vars i = 0%R /\
  state_v N_source cruise_vars i = 40%R.
Proof.
  intros Hi. unfold N_source in Hi.
  assert (Hc : i = 0 \/ i = 1 \/ i = 2 \/ i = 3 \/ i = 4 \/ i = 5 \/ i = 6 \/
               i = 7 \/ i = 8 \/ i = 9 \/ i = 10 \/ i = 11 \/ i = 12 \/
               i = 13 \/ i = 14) by lia.
  repeat (destruct Hc as [->|Hc]; [repeat split; reflexivity|]).
  subst i. repeat split; reflexivity.
Qed.

Lemma cruise_uses_no_control (i : Z) :
  0 <= i < N_source - 1 ->
  control_delta N_source cruise_vars i = 0%R /\
  control_a N_source cruise_vars i = 0%R.
Proof.
  intros Hi. unfold N_source in Hi.
  assert (Hc : i = 0 \/ i = 1 \/ i = 2 \/ i = 3 \/ i = 4 \/ i = 5 \/ i = 6 \/
               i = 7 \/ i = 8 \/ i = 9 \/ i = 10 \/ i = 11 \/ i = 12 \/
               i = 13) by lia.
  repeat (destruct Hc as [->|Hc]; [split; reflexivity|]).
  subst i. split; reflexivity.
Qed.

(** X6: the cost is a sum of squares with non-negative weights: it is
    never negative, and it is zero, its least value, at every candidate
    whose [cte] and [epsi] entries are all 0, whose [v] entries are all
    the reference speed 40 and whose steering and acceleration entries
    are all 0. *)
Theorem X6_cost_sign (N : Z) (coeffs fg vars : list R) :
  horizon N -> sized N fg vars -> (4 <= length coeffs)%nat ->
  exists fg', fg_eval N coeffs fg vars = Some fg' /\
    (0 <= vat fg' 0)%R /\
    ((forall i, 0 <= i < N ->
        state_cte N vars i = 0%R /\ state_epsi N vars i = 0%R /\
        state_v N vars i = 40%R) ->
     (forall i, 0 <= i < N - 1 ->
        control_delta N vars i = 0%R /\ control_a N vars i = 0%R) ->
     vat fg' 0 = 0%R).
Proof.
  intros HN Hsz Hco.
  destruct (fg_eval_total N coeffs fg vars HN Hsz Hco)
    as (fg' & E & _ & Hcost & _).
  exists fg'. split; [exact E|]. rewrite Hcost, cost_real.
  apply cost_spec_sign. unfold horizon in HN. lia.
Qed.

Lemma X6_cost_sign_witness :
  horizon N_source /\ sized N_source sample_fg cruise_vars /\
  (4 <= length sample_coeffs)%nat /\
  (forall i, 0 <= i < N_source ->
     state_cte N_source cruise_vars i = 0%R /\
     state_epsi N_source cruise_vars i = 0%R /\
     state_v N_source cruise_vars i = 40%R) /\
  (forall i, 0 <= i < N_source - 1 ->
     control_delta N_source cruise_vars i = 0%R /\
     control_a N_source cruise_vars i = 0%R) /\
  exists fg', fg_eval N_source sample_coeffs sample_fg cruise_vars = Some fg' /\
    (0 <= vat fg' 0)%R /\ vat fg' 0 = 0%R.
Proof.
  split; [sample_side|]. split; [sample_side|]. split; [sample_side|].
  split; [exact cruise_tracks_reference|].
  split; [exact cruise_uses_no_control|].
  destruct (X6_cost_sign N_source sample_coeffs sample_fg cruise_vars)
    as (fg' & E & Hpos & Hzero); [sample_side|sample_side|sample_side|].
  exists fg'. split; [exact E|]. split; [exact Hpos|].
  exact (Hzero cruise_tracks_reference cruise_uses_no_control).
Defined.

(** ** A horizon of one step *)

(** X7: with a horizon of 1 the bound [N - 2] of the loop over the gaps
    between consecutive controls wraps to [2^64 - 1]; the loop is entered
    and its first iteration reads [vars[delta_start + 1]], index 7 of a
    vector of [n_vars = 6] entries: the evaluation has no result,
    whatever the coefficients and [fg] are. *)
Theorem X7_horizon_one_out_of_bounds {T : Type} `{Scalar T}
    (coeffs fg vars : list T) :
  Z.of_nat (length vars) = n_vars 1 ->
  n_vars 1 = 6 /\ 1 -! 2 = 2 ^ 64 - 1 /\ delta_start 1 +! 0 +! 1 = 7 /\
  fg_eval 1 coeffs fg vars = None.
Proof.
  intros Hv. change (n_vars 1) with 6 in Hv.
  split; [reflexivity|]. split; [reflexivity|]. split; [reflexivity|].
  unfold fg_eval.
  do 3 match goal with
    | |- mbind _ ?m = None =>
        destruct m; [rewrite bind_Some_l|apply bind_None_l]
    end.
  change (1 -! 2) with (2 ^ 64 - 1). unfold for_range.
  destruct (Z.to_nat (2 ^ 64 - 1 - 0)) as [|n] eqn:En; [lia|].
  cbn [for_loop]. unfold cost_gaps.
  change (delta_start 1 +! 0 +! 1) with 7.
  rewrite (vget_None vars 7) by lia.
  rewrite bind_None_l. rewrite !bind_None_l. reflexivity.
Qed.

Lemma X7_horizon_one_out_of_bounds_witness :
  Z.of_nat (length [1; 2; 3; 4; 5; 6]%R) = n_vars 1 /\
  n_vars 1 = 6 /\ 1 -! 2 = 2 ^ 64 - 1 /\ delta_start 1 +! 0 +! 1 = 7 /\
  fg_eval 1 sample_coeffs (vfill 7 0%R) [1; 2; 3; 4; 5; 6]%R = None.
Proof.
  split; [reflexivity|].
  apply (X7_horizon_one_out_of_bounds sample_coeffs (vfill 7 0%R)
           [1; 2; 3; 4; 5; 6]%R).
  reflexivity.
Defined.

(** ** The constraints determine the trajectory *)

Section Trajectory.
Variable N : Z.
Hypothesis HN : horizon N.
Variable coeffs : list R.

Lemma zero_residuals_model (vars fg : list R) (i : Z) :
  fg_expected N coeffs vars fg -> residuals_zero N fg -> 0 <= i < N - 1 ->
  state_x vars (i + 1) = model_x N vars i /\
  state_y N vars (i + 1) = model_y N vars i /\
  state_psi N vars (i + 1) = model_psi N vars i /\
  state_v N vars (i + 1) = model_v N vars i /\
  state_cte N vars (i + 1) = model_cte N coeffs vars i /\
  state_epsi N vars (i + 1) = model_epsi N coeffs vars i.
Proof.
  intros (_ & _ & _ & Hres) Hz Hi.
  destruct (Hres i Hi) as (R1 & R2 & R3 & R4 & R5 & R6).
  destruct (Hz i Hi) as (Z1 & Z2 & Z3 & Z4 & Z5 & Z6).
  rewrite R1 in Z1. rewrite R2 in Z2. rewrite R3 in Z3. rewrite R4 in Z4.
  rewrite R5 in Z5. rewrite R6 in Z6.
  rewrite res_x_model in Z1. rewrite res_y_model in Z2.
  rewrite res_psi_model in Z3. rewrite res_v_model in Z4.
  rewrite res_cte_model in Z5. rewrite res_epsi_model in Z6.
  repeat split; lra.
Qed.

Lemma model_same_state (v1 v2 : list R) (i : Z) :
  same_state N v1 v2 i ->
  control_delta N v1 i = control_delta N v2 i ->
  control_a N v1 i = control_a N v2 i ->
  model_x N v1 i = model_x N v2 i /\ model_y N v1 i = model_y N v2 i /\
  model_psi N v1 i = model_psi N v2 i /\ model_v N v1 i = model_v N v2 i /\
  model_cte N coeffs v1 i = model_cte N coeffs v2 i /\
  model_epsi N coeffs v1 i = model_epsi N coeffs v2 i.
Proof.
  intros (Ex & Ey & Epsi & Ev & Ecte & Eepsi) Ed Ea.
  unfold model_x, model_y, model_psi, model_v, model_cte, model_epsi.
  rewrite Ex, Ey, Epsi, Ev, Eepsi, Ed, Ea. repeat split; reflexivity.
Qed.

Lemma same_state_all (v1 v2 fg1 fg2 : list R) :
  fg_expected N coeffs v1 fg1 -> fg_expected N coeffs v2 fg2 ->
  residuals_zero N fg1 -> residuals_zero N fg2 ->
  same_state N v1 v2 0 -> same_controls N v1 v2 ->
  forall t : nat, Z.of_nat t < N -> same_state N v1 v2 (Z.of_nat t).
Proof.
  intros X1 X2 Z1 Z2 H0 Hc. induction t as [|t IH]; intros Ht.
  - exact H0.
  - assert (Hi : 0 <= Z.of_nat t < N - 1) by lia.
    specialize (IH ltac:(lia)).
    destruct (Hc _ Hi) as [Ed Ea].
    destruct (model_same_state v1 v2 _ IH Ed Ea)
      as (Mx & My & Mpsi & Mv & Mcte & Mepsi).
    destruct (zero_residuals_model v1 fg1 _ X1 Z1 Hi)
      as (A1 & A2 & A3 & A4 & A5 & A6).
    destruct (zero_residuals_model v2 fg2 _ X2 Z2 Hi)
      as (B1 & B2 & B3 & B4 & B5 & B6).
    replace (Z.of_nat (Datatypes.S t)) with (Z.of_nat t + 1) by lia.
    unfold same_state.
    rewrite A1, A2, A3, A4, A5, A6, B1, B2, B3, B4, B5, B6.
    exact (conj Mx (conj My (conj Mpsi (conj Mv (conj Mcte Mepsi))))).
Qed.

(** The entries of a candidate vector, block by block. *)
Lemma state_x_at (v : list R) (t : Z) : state_x v t = vat v (x_start + t).
Proof. reflexivity. Qed.
Lemma state_y_at (v : list R) (t : Z) : state_y N v t = vat v (y_start N + t).
Proof. reflexivity. Qed.
Lemma state_psi_at (v : list R) (t : Z) :
  state_psi N v t = vat v (psi_start N + t).
Proof. reflexivity. Qed.
Lemma state_v_at (v : list R) (t : Z) : state_v N v t = vat v (v_start N + t).
Proof. reflexivity. Qed.
Lemma state_cte_at (v : list R) (t : Z) :
  state_cte N v t = vat v (cte_start N + t).
Proof. reflexivity. Qed.
Lemma state_epsi_at (v : list R) (t : Z) :
  state_epsi N v t = vat v (epsi_start N + t).
Proof. reflexivity. Qed.
Lemma control_delta_at (v : list R) (t : Z) :
  control_delta N v t = vat v (delta_start N + t).
Proof. reflexivity. Qed.
Lemma control_a_at (v : list R) (t : Z) :
  control_a N v t = vat v (a_start N + t).
Proof. reflexivity. Qed.

Lemma same_entries (v1 v2 : list R) (j : Z) :
  (forall t, 0 <= t < N -> same_state N v1 v2 t) -> same_controls N v1 v2 ->
  0 <= j < n_vars N -> vat v1 j = vat v2 j.
Proof.
  intros Hst Hc Hj.
  assert (HL : 1 <= N /\ 8 * N <= 2 ^ 64)
    by (unfold horizon, size_t_bits in HN; lia).
  destruct (layout_offsets N (proj1 HL) (proj2 HL))
    as (Ex & Ey & Epsi & Ev & Ecte & Eepsi & Edelta & Ea & Env & Enc).
  rewrite Env in Hj.
  destruct (decide (j < N)).
  { destruct (Hst j ltac:(lia)) as (E & _).
    rewrite (state_x_at v1), (state_x_at v2), Ex in E. now replace (0 + j) with j in E by lia. }
  destruct (decide (j < 2 * N)).
  { destruct (Hst (j - N) ltac:(lia)) as (_ & E & _).
    rewrite (state_y_at v1), (state_y_at v2), Ey in E.
    now replace (N + (j - N)) with j in E by lia. }
  destruct (decide (j < 3 * N)).
  { destruct (Hst (j - 2 * N) ltac:(lia)) as (_ & _ & E & _).
    rewrite (state_psi_at v1), (state_psi_at v2), Epsi in E.
    now replace (2 * N + (j - 2 * N)) with j in E by lia. }
  destruct (decide (j < 4 * N)).
  { destruct (Hst (j - 3 * N) ltac:(lia)) as (_ & _ & _ & E & _).
    rewrite (state_v_at v1), (state_v_at v2), Ev in E.
    now replace (3 * N + (j - 3 * N)) with j in E by lia. }
  destruct (decide (j < 5 * N)).
  { destruct (Hst (j - 4 * N) ltac:(lia)) as (_ & _ & _ & _ & E & _).
    rewrite (state_cte_at v1), (state_cte_at v2), Ecte in E.
    now replace (4 * N + (j - 4 * N)) with j in E by lia. }
  destruct (decide (j < 6 * N)).
  { destruct (Hst (j - 5 * N) ltac:(lia)) as (_ & _ & _ & _ & _ & E).
    rewrite (state_epsi_at v1), (state_epsi_at v2), Eepsi in E.
    now replace (5 * N + (j - 5 * N)) with j in E by lia. }
  destruct (decide (j < 7 * N - 1)).
  { destruct (Hc (j - 6 * N) ltac:(lia)) as (E & _).
    rewrite (control_delta_at v1), (control_delta_at v2), Edelta in E.
    now replace (6 * N + (j - 6 * N)) with j in E by lia. }
  destruct (Hc (j - (7 * N - 1)) ltac:(lia)) as (_ & E).
  rewrite (control_a_at v1), (control_a_at v2), Ea in E.
  now replace (7 * N - 1 + (j - (7 * N - 1))) with j in E by lia.
Qed.

Lemma same_trajectory (v1 v2 fg1 fg2 : list R) :
  Z.of_nat (length v1) = n_vars N -> Z.of_nat (length v2) = n_vars N ->
  fg_expected N coeffs v1 fg1 -> fg_expected N coeffs v2 fg2 ->
  residuals_zero N fg1 -> residuals_zero N fg2 ->
  same_state N v1 v2 0 -> same_controls N v1 v2 -> v1 = v2.
Proof.
  intros L1 L2 X1 X2 Z1 Z2 H0 Hc.
  pose proof (same_state_all v1 v2 fg1 fg2 X1 X2 Z1 Z2 H0 Hc) as Hall.
  apply vat_ext; [lia|]. intros j Hj. rewrite L1 in Hj.
  apply same_entries; [|exact Hc|exact Hj].
  intros t Ht. replace t with (Z.of_nat (Z.to_nat t)) by lia.
  apply Hall. lia.
Qed.
End Trajectory.

(** X10: the equality constraints leave no freedom beyond the initial
    state and the controls: two candidate vectors whose residuals for the
    timesteps [1 .. N-1] are all zero, and which have the same six state
    values at timestep 0 and the same steering and acceleration entries,
    are equal. *)
Theorem X10_constraints_determine_trajectory (N : Z)
    (coeffs fg vars1 vars2 : list R) :
  horizon N -> sized N fg vars1 -> sized N fg vars2 ->
  (4 <= length coeffs)%nat ->
  exists fg1 fg2,
    fg_eval N coeffs fg vars1 = Some fg1 /\
    fg_eval N coeffs fg vars2 = Some fg2 /\
    (residuals_zero N fg1 -> residuals_zero N fg2 ->
     same_state N vars1 vars2 0 -> same_controls N vars1 vars2 ->
     vars1 = vars2).
Proof.
  intros HN Hs1 Hs2 Hco.
  destruct (fg_eval_total N coeffs fg vars1 HN Hs1 Hco) as (fg1 & E1 & X1).
  destruct (fg_eval_total N coeffs fg vars2 HN Hs2 Hco) as (fg2 & E2 & X2).
  exists fg1, fg2. split; [exact E1|]. split; [exact E2|].
  intros Z1 Z2 H0 Hc.
  apply (same_trajectory N HN coeffs vars1 vars2 fg1 fg2);
    try assumption; [apply Hs1|apply Hs2].
Qed.

Lemma vat_vfill_zero (n k : Z) : vat (vfill n 0%R) k = 0%R.
Proof.
  unfold vat, vget, vfill. destruct (decide (0 <= k)); [|reflexivity].
  destruct (replicate (Z.to_nat n) 0%R !! Z.to_nat k) as [x|] eqn:E;
    [|reflexivity].
  apply lookup_replicate in E. now destruct E as [-> _].
Qed.

Lemma vat_zero_coeffs (k : Z) : vat zero_coeffs k = 0%R.
Proof.
  unfold vat, vget, zero_coeffs. destruct (decide (0 <= k)); [|reflexivity].
  destruct (Z.to_nat k) as [|[|[|[|n]]]]; reflexivity.
Qed.

Lemma rest_obeys_dynamics (fg : list R) :
  fg_expected N_source zero_coeffs rest_vars fg -> residuals_zero N_source fg.
Proof.
  intros (_ & _ & _ & Hres) i Hi.
  destruct (Hres i Hi) as (-> & -> & -> & -> & -> & ->).
  unfold res_x, res_y, res_psi, res_v, res_cte, res_epsi, f0, psides0,
    rest_vars.
  rewrite !vat_vfill_zero, !vat_zero_coeffs. real_ops.
  rewrite !powerRZ_2, !powerRZ_3.
  replace (0 + 2 * 0 * 0 + 3 * 0 * 0 ^ 2)%R with 0%R by ring.
  rewrite atan_0, sin_0.
  generalize (cos 0) (@dt R _) (@Lf R _). intros c d L.
  repeat split; unfold Rdiv; ring.
Qed.

Lemma X10_constraints_determine_trajectory_witness :
  horizon N_source /\ sized N_source sample_fg rest_vars /\
  (4 <= length zero_coeffs)%nat /\
  exists fg1,
    fg_eval N_source zero_coeffs sample_fg rest_vars = Some fg1 /\
    residuals_zero N_source fg1 /\
    same_state N_source rest_vars rest_vars 0 /\
    same_controls N_source rest_vars rest_vars /\
    rest_vars = rest_vars.
Proof.
  split; [sample_side|]. split; [sample_side|]. split; [sample_side|].
  destruct (X10_constraints_determine_trajectory N_source zero_coeffs
              sample_fg rest_vars rest_vars)
    as (fg1 & fg2 & E1 & E2 & Heq); [sample_side..|].
  destruct (fg_eval_total N_source zero_coeffs sample_fg rest_vars)
    as (g & Eg & Xg); [sample_side..|].
  rewrite E1 in Eg. injection Eg as <-.
  rewrite E1 in E2. injection E2 as <-.
  pose proof (rest_obeys_dynamics fg1 Xg) as Hz.
  exists fg1. split; [exact E1|]. split; [exact Hz|].
  assert (H0 : same_state N_source rest_vars rest_vars 0)
    by (repeat split; reflexivity).
  assert (Hc : same_controls N_source rest_vars rest_vars)
    by (intros i Hi; split; reflexivity).
  split; [exact H0|]. split; [exact Hc|].
  exact (Heq Hz Hz H0 Hc).
Defined.

(** ** What the cost reads *)

Lemma accumulate_ext {T : Type} (step1 step2 : T -> Z -> T) (n : nat) (c : T) :
  (forall a i, 0 <= i < Z.of_nat n -> step1 a i = step2 a i) ->
  accumulate step1 n c = accumulate step2 n c.
Proof.
  induction n as [|n IH]; intros Hstep; cbn [accumulate]; [reflexivity|].
  rewrite IH by (intros a i Hi; apply Hstep; lia). apply Hstep. lia.
Qed.

Lemma cost_agree {T : Type} `{Scalar T} (N : Z) (vars1 vars2 : list T) :
  horizon N ->
  (forall j, v_start N <= j < n_vars N -> vat vars1 j = vat vars2 j) ->
  cost N vars1 = cost N vars2.
Proof.
  intros HN Hag.
  assert (HL : 1 <= N /\ 8 * N <= 2 ^ 64)
    by (unfold horizon, size_t_bits in HN; lia).
  assert (H2 : 2 <= N) by (unfold horizon in HN; lia).
  destruct (layout_offsets N (proj1 HL) (proj2 HL))
    as (Ex & Ey & Epsi & Ev & Ecte & Eepsi & Edelta & Ea & Env & Enc).
  unfold cost.
  rewrite (accumulate_ext (track_step N vars1) (track_step N vars2)).
  2:{ intros a i Hi. unfold track_step.
      rewrite (Hag (cte_start N + i)), (Hag (epsi_start N + i)),
        (Hag (v_start N + i)) by lia. reflexivity. }
  rewrite (accumulate_ext (effort_step N vars1) (effort_step N vars2)).
  2:{ intros a i Hi. unfold effort_step.
      rewrite (Hag (delta_start N + i)), (Hag (a_start N + i)) by lia.
      reflexivity. }
  apply accumulate_ext. intros a i Hi. unfold smooth_step.
  rewrite (Hag (delta_start N + i + 1)), (Hag (delta_start N + i)),
    (Hag (a_start N + i + 1)), (Hag (a_start N + i)) by lia.
  reflexivity.
Qed.

(** X11: the cost reads the [v], [cte] and [epsi] blocks and the two
    control blocks only: two candidate vectors that agree from [v_start]
    on have the same cost, whatever their [x], [y] and [psi] entries
    are. *)
Theorem X11_cost_ignores_position {T : Type} `{Scalar T} (N : Z)
    (coeffs fg vars1 vars2 : list T) :
  horizon N -> sized N fg vars1 -> sized N fg vars2 ->
  (4 <= length coeffs)%nat ->
  (forall j, v_start N <= j < n_vars N -> vat vars1 j = vat vars2 j) ->
  exists fg1 fg2,
    fg_eval N coeffs fg vars1 = Some fg1 /\
    fg_eval N coeffs fg vars2 = Some fg2 /\
    vat fg1 0 = vat fg2 0.
Proof.
  intros HN Hs1 Hs2 Hco Hag.
  destruct (fg_eval_total N coeffs fg vars1 HN Hs1 Hco)
    as (fg1 & E1 & _ & C1 & _).
  destruct (fg_eval_total N coeffs fg vars2 HN Hs2 Hco)
    as (fg2 & E2 & _ & C2 & _).
  exists fg1, fg2. split; [exact E1|]. split; [exact E2|].
  rewrite C1, C2. now apply cost_agree.
Qed.

Lemma X11_cost_ignores_position_witness :
  horizon N_source /\ sized N_source sample_fg sample_vars /\
  sized N_source sample_fg moved_vars /\ (4 <= length sample_coeffs)%nat /\
  (forall j, v_start N_source <= j < n_vars N_source ->
     vat sample_vars j = vat moved_vars j) /\
  exists fg1 fg2,
    fg_eval N_source sample_coeffs sample_fg sample_vars = Some fg1 /\
    fg_eval N_source sample_coeffs sample_fg moved_vars = Some fg2 /\
    vat fg1 0 = vat fg2 0.
Proof.
  assert (Hag : forall j, v_start N_source <= j < n_vars N_source ->
            vat sample_vars j = vat moved_vars j).
  { intros j Hj. change (v_start N_source) with 45 in Hj.
    unfold moved_vars. rewrite vat_vupd_ne by lia. reflexivity. }
  split; [sample_side|]. split; [sample_side|]. split; [sample_side|].
  split; [sample_side|]. split; [exact Hag|].
  apply (X11_cost_ignores_position N_source sample_coeffs sample_fg
           sample_vars moved_vars);
    [sample_side|sample_side|sample_side|sample_side|exact Hag].
Defined.

(** ** Which variables a residual depends on *)

Lemma vat_independent (n j : Z) :
  0 <= j < n -> vat (independent n) j = EVar j.
Proof.
  intros Hj. unfold vat, vget, independent. rewrite decide_True by lia.
  rewrite list_lookup_fmap, lookup_seqZ_lt by lia. cbn.
  f_equal. lia.
Qed.

Lemma variables_coefficient (qs : list Q) (k : Z) :
  variables (vat (ELit <$> qs) k) = [].
Proof.
  unfold vat, vget. destruct (decide (0 <= k)); [|reflexivity].
  rewrite list_lookup_fmap. destruct (qs !! Z.to_nat k); reflexivity.
Qed.

Section Sparsity.
Variable N : Z.
Hypothesis HN : horizon N.
Variable qs : list Q.
Variable i : Z.
Hypothesis Hi : 0 <= i < N - 1.

Let vars := independent (n_vars N).
Let coeffs := ELit <$> qs.

(** Each element of a short explicit list is found in an explicit list. *)
Ltac subset_stencil :=
  let k := fresh "k" in let Hk := fresh "Hk" in
  intros k Hk;
  repeat (apply elem_of_cons in Hk; destruct Hk as [->|Hk]);
  try (now apply elem_of_nil in Hk);
  repeat first [ apply list_elem_of_here | apply list_elem_of_further ].

Ltac open_residual :=
  assert (HL : 1 <= N /\ 8 * N <= 2 ^ 64)
    by (unfold horizon, size_t_bits in HN; lia);
  destruct (layout_offsets N (proj1 HL) (proj2 HL))
    as (Ex & Ey & Epsi & Ev & Ecte & Eepsi & Edelta & Ea & Env & Enc);
  unfold stencil, vars, coeffs;
  rewrite Ex, Ey, Epsi, Ev, Ecte, Eepsi, Edelta, Ea, Env;
  rewrite !vat_independent by lia;
  cbn [sadd ssub smul sdiv spow ssin scos satan of_int lit expr_scalar
       variables app];
  rewrite ?variables_coefficient; cbn [app].

Lemma variables_res_x :
  variables (res_x N vars i) ⊆ stencil N i.
Proof. unfold res_x, dt. open_residual. subset_stencil. Qed.

Lemma variables_res_y :
  variables (res_y N vars i) ⊆ stencil N i.
Proof. unfold res_y, dt. open_residual. subset_stencil. Qed.

Lemma variables_res_psi :
  variables (res_psi N vars i) ⊆ stencil N i.
Proof. unfold res_psi, dt, Lf. open_residual. subset_stencil. Qed.

Lemma variables_res_v :
  variables (res_v N vars i) ⊆ stencil N i.
Proof. unfold res_v, dt. open_residual. subset_stencil. Qed.

Lemma variables_res_cte :
  variables (res_cte N coeffs vars i) ⊆ stencil N i.
Proof. unfold res_cte, f0, dt. cbv zeta. open_residual. subset_stencil. Qed.

Lemma variables_res_epsi :
  variables (res_epsi N coeffs vars i) ⊆ stencil N i.
Proof.
  unfold res_epsi, psides0, dt, Lf. cbv zeta. open_residual. subset_stencil.
Qed.
End Sparsity.

(** X9: the residuals are local in time: in the operations an evaluation
    records, each of the six residuals of timestep [i + 1] mentions only
    the fourteen variables that iteration [i] reads (the state at [i + 1],
    the state at [i] and the controls at [i]), and each initial-state
    residual is the single variable at its block start. *)
Theorem X9_residuals_are_local (N : Z) (qs : list Q) :
  horizon N -> (4 <= length qs)%nat ->
  exists tape,
    fg_eval N (ELit <$> qs) (vfill (1 + n_constraints N) (EInt 0))
      (independent (n_vars N)) = Some tape /\
    (forall c, 0 <= c < 6 -> vat tape (1 + c * N) = EVar (c * N)) /\
    forall i, 0 <= i < N - 1 ->
      variables (vat tape (2 + x_start + i)) ⊆ stencil N i /\
      variables (vat tape (2 + y_start N + i)) ⊆ stencil N i /\
      variables (vat tape (2 + psi_start N + i)) ⊆ stencil N i /\
      variables (vat tape (2 + v_start N + i)) ⊆ stencil N i /\
      variables (vat tape (2 + cte_start N + i)) ⊆ stencil N i /\
      variables (vat tape (2 + epsi_start N + i)) ⊆ stencil N i.
Proof.
  intros HN Hqs.
  assert (HB : 2 <= N /\ 8 * N <= 2 ^ 64) by exact HN.
  assert (Hnv : 0 <= n_vars N) by (layout N; lia).
  assert (Hnc : 0 <= 1 + n_constraints N) by (layout N; lia).
  assert (Hsz : sized N (vfill (1 + n_constraints N) (EInt 0))
                  (independent (n_vars N))).
  { split; [now apply length_independent|now apply length_vfill]. }
  assert (Hco : (4 <= length (ELit <$> qs))%nat) by now rewrite length_fmap.
  destruct (fg_eval_total N (ELit <$> qs) _ _ HN Hsz Hco)
    as (tape & E & _ & _ & _ & Hres).
  destruct (fg_initial_block N (ELit <$> qs) _ _ HN Hsz Hco)
    as (tape' & E' & Hblock).
  rewrite E in E'. injection E' as <-.
  exists tape. split; [exact E|]. split.
  - intros c Hc. rewrite (Hblock c Hc). apply vat_independent.
    layout N. nia.
  - intros i Hi.
    destruct (Hres i Hi) as (-> & -> & -> & -> & -> & ->).
    split; [now apply variables_res_x|].
    split; [now apply variables_res_y|].
    split; [now apply variables_res_psi|].
    split; [now apply variables_res_v|].
    split; [now apply variables_res_cte|].
    now apply variables_res_epsi.
Qed.

Lemma X9_residuals_are_local_witness :
  horizon N_source /\ (4 <= length [1; 2; 3; 4]%Q)%nat /\
  exists tape,
    fg_eval N_source (ELit <$> [1; 2; 3; 4]%Q)
      (vfill (1 + n_constraints N_source) (EInt 0))
      (independent (n_vars N_source)) = Some tape /\
    (forall c, 0 <= c < 6 ->
       vat tape (1 + c * N_source) = EVar (c * N_source)) /\
    forall i, 0 <= i < N_source - 1 ->
      variables (vat tape (2 + x_start + i)) ⊆ stencil N_source i /\
      variables (vat tape (2 + y_start N_source + i)) ⊆ stencil N_source i /\
      variables (vat tape (2 + psi_start N_source + i)) ⊆ stencil N_source i /\
      variables (vat tape (2 + v_start N_source + i)) ⊆ stencil N_source i /\
      variables (vat tape (2 + cte_start N_source + i)) ⊆ stencil N_source i /\
      variables (vat tape (2 + epsi_start N_source + i)) ⊆ stencil N_source i.
Proof.
  split; [sample_side|]. split; [sample_side|].
  apply (X9_residuals_are_local N_source [1; 2; 3; 4]%Q); sample_side.
Defined.

(** ** The sizes an evaluation needs *)

Section Lengths.
Context {T : Type} `{Scalar T}.

Lemma vset_length (v v' : list T) (i : Z) (x : T) :
  vset v i x = Some v' -> length v' = length v.
Proof.
  unfold vset. destruct (decide (0 <= i < Z.of_nat (length v))); [|discriminate].
  intros [= <-]. apply length_insert.
Qed.

Lemma vadd_length (v v' : list T) (i : Z) (x : T) :
  vadd v i x = Some v' -> length v' = length v.
Proof.
  unfold vadd. intros Hv. apply bind_Some in Hv. destruct Hv as (a & _ & Hv).
  now apply vset_length in Hv.
Qed.

(** Splits a chain that has a result into its steps and collects what
    each assignment says about the length. *)
Ltac chain_lengths Hc :=
  repeat (cbv zeta in Hc; apply bind_Some in Hc;
          let x := fresh "x" in let Hx := fresh "Hx" in
          destruct Hc as (x & Hx & Hc);
          first [ apply vset_length in Hx | apply vadd_length in Hx
                | clear Hx ]);
  cbv zeta in Hc;
  first [ apply vset_length in Hc | apply vadd_length in Hc ];
  congruence.

Lemma cost_reference_length (N : Z) (vars fg fg' : list T) (i : Z) :
  cost_reference N vars i fg = Some fg' -> length fg' = length fg.
Proof. unfold cost_reference. intros Hc. chain_lengths Hc. Qed.

Lemma cost_actuators_length (N : Z) (vars fg fg' : list T) (i : Z) :
  cost_actuators N vars i fg = Some fg' -> length fg' = length fg.
Proof. unfold cost_actuators. intros Hc. chain_lengths Hc. Qed.

Lemma cost_gaps_length (N : Z) (vars fg fg' : list T) (i : Z) :
  cost_gaps N vars i fg = Some fg' -> length fg' = length fg.
Proof. unfold cost_gaps. intros Hc. chain_lengths Hc. Qed.

Lemma init_constraint_length (vars fg fg' : list T) (s : Z) :
  init_constraint vars s fg = Some fg' -> length fg' = length fg.
Proof. unfold init_constraint. intros Hc. chain_lengths Hc. Qed.

Lemma constraint_step_length (N : Z) (coeffs vars fg fg' : list T) (i : Z) :
  constraint_step N coeffs vars i fg = Some fg' -> length fg' = length fg.
Proof. unfold constraint_step. intros Hc. chain_lengths Hc. Qed.

(** A loop whose iterations keep a property keeps it. *)
Lemma for_loop_keeps {S : Type} (I : S -> Prop)
    (body : Z -> S -> option S) (n : nat) (i : Z) (s s' : S) :
  (forall j t t', I t -> body j t = Some t' -> I t') ->
  I s -> for_loop n i body s = Some s' -> I s'.
Proof.
  intros Hbody. revert i s. induction n as [|n IH]; intros i s Hs Hl.
  - cbn [for_loop] in Hl. now injection Hl as <-.
  - cbn [for_loop] in Hl. apply bind_Some in Hl.
    destruct Hl as (t & Ht & Hl). eapply IH; [|exact Hl]. eauto.
Qed.

(** A loop has no result when one of its iterations has none. *)
Lemma for_loop_fails {S : Type} (I : S -> Prop)
    (body : Z -> S -> option S) (n : nat) (lo k : Z) (s : S) :
  (forall j t t', I t -> body j t = Some t' -> I t') ->
  0 <= lo -> lo + Z.of_nat n < 2 ^ 64 -> 0 <= k < Z.of_nat n ->
  (forall t, I t -> body (lo + k) t = None) ->
  I s -> for_loop n lo body s = None.
Proof.
  intros Hkeep. revert lo k s.
  induction n as [|n IH]; intros lo k s Hlo Hhi Hk Hfail Hs; [lia|].
  cbn [for_loop]. destruct (body lo s) as [t|] eqn:Ht; [|apply bind_None_l].
  rewrite bind_Some_l, sz_add_small by lia.
  destruct (decide (k = 0)) as [->|Hne].
  - rewrite Z.add_0_r in Hfail. rewrite Hfail in Ht by assumption.
    discriminate.
  - apply (IH (lo + 1) (k - 1)); [lia|lia|lia| |eauto].
    intros u Hu. replace (lo + 1 + (k - 1)) with (lo + k) by lia.
    now apply Hfail.
Qed.
End Lengths.

Section EnoughRoom.
Context {T : Type} `{Scalar T}.
Variable N : Z.
Hypothesis HN : horizon N.
Variables coeffs vars : list T.
Hypothesis Hvars : n_vars N <= Z.of_nat (length vars).
Hypothesis Hcoeffs : (4 <= length coeffs)%nat.

Ltac body_runs :=
  layout N; unwrap; run_body; eexists; split;
    [reflexivity|rewrite ?length_vupd; reflexivity].

Lemma cost_reference_runs (i : Z) (fg : list T) :
  0 <= i < N -> 1 + n_constraints N <= Z.of_nat (length fg) ->
  exists fg', cost_reference N vars i fg = Some fg' /\ length fg' = length fg.
Proof. intros Hi Hfg. unfold cost_reference. body_runs. Qed.

Lemma cost_actuators_runs (i : Z) (fg : list T) :
  0 <= i < N - 1 -> 1 + n_constraints N <= Z.of_nat (length fg) ->
  exists fg', cost_actuators N vars i fg = Some fg' /\ length fg' = length fg.
Proof. intros Hi Hfg. unfold cost_actuators. body_runs. Qed.

Lemma cost_gaps_runs (i : Z) (fg : list T) :
  0 <= i < N - 2 -> 1 + n_constraints N <= Z.of_nat (length fg) ->
  exists fg', cost_gaps N vars i fg = Some fg' /\ length fg' = length fg.
Proof. intros Hi Hfg. unfold cost_gaps. body_runs. Qed.

Lemma init_constraint_runs (s : Z) (fg : list T) :
  0 <= s <= 5 * N -> 1 + n_constraints N <= Z.of_nat (length fg) ->
  exists fg', init_constraint vars s fg = Some fg' /\ length fg' = length fg.
Proof. intros Hs Hfg. unfold init_constraint. body_runs. Qed.

Lemma constraint_step_runs (i : Z) (fg : list T) :
  0 <= i < N - 1 -> 1 + n_constraints N <= Z.of_nat (length fg) ->
  exists fg', constraint_step N coeffs vars i fg = Some fg' /\
    length fg' = length fg.
Proof. intros Hi Hfg. unfold constraint_step. cbv zeta. body_runs. Qed.

(** A loop whose iterations all run and keep the length runs. *)
Lemma loop_runs (body : Z -> list T -> option (list T)) (n : Z) (fg : list T) :
  0 <= n < 2 ^ 64 ->
  (forall i t, 0 <= i < n -> length t = length fg ->
     exists t', body i t = Some t' /\ length t' = length t) ->
  exists fg', for_range 0 n body fg = Some fg' /\ length fg' = length fg.
Proof.
  intros Hn Hbody.
  apply (for_range_rule (fun _ t => length t = length fg)); [lia|lia|reflexivity|].
  intros i t Hi Ht. destruct (Hbody i t Hi Ht) as (t' & E & L).
  exists t'. split; [exact E|congruence].
Qed.

Lemma fg_eval_runs (fg : list T) :
  1 + n_constraints N <= Z.of_nat (length fg) ->
  is_Some (fg_eval N coeffs fg vars).
Proof.
  intros Hfg.
  assert (HB : 2 <= N /\ 8 * N <= 2 ^ 64) by exact HN.
  assert (HN1 : N -! 1 = N - 1) by now unwrap.
  assert (HN2 : N -! 2 = N - 2) by now unwrap.
  assert (Hnc : n_constraints N = 6 * N) by (now layout N).
  assert (Hoff : y_start N = N /\ psi_start N = 2 * N /\ v_start N = 3 * N /\
                 cte_start N = 4 * N /\ epsi_start N = 5 * N)
    by (layout N; repeat split; reflexivity).
  destruct Hoff as (Ey & Epsi & Ev & Ecte & Eepsi).
  unfold fg_eval. rewrite vset_vupd, bind_Some_l by lia.
  rewrite HN1, HN2.
  destruct (loop_runs (cost_reference N vars) N (vupd fg 0 (of_int 0)))
    as (g1 & E1 & L1); [lia| |].
  { intros i t Hi Ht. apply cost_reference_runs; [lia|].
    rewrite Ht, length_vupd. lia. }
  rewrite E1, bind_Some_l. rewrite length_vupd in L1.
  destruct (loop_runs (cost_actuators N vars) (N - 1) g1)
    as (g2 & E2 & L2); [lia| |].
  { intros i t Hi Ht. apply cost_actuators_runs; [lia|]. lia. }
  rewrite E2, bind_Some_l.
  destruct (loop_runs (cost_gaps N vars) (N - 2) g2)
    as (g3 & E3 & L3); [lia| |].
  { intros i t Hi Ht. apply cost_gaps_runs; [lia|]. lia. }
  rewrite E3, bind_Some_l.
  destruct (init_constraint_runs x_start g3) as (g4 & E4 & L4);
    [unfold x_start; lia|lia|].
  rewrite E4, bind_Some_l.
  destruct (init_constraint_runs (y_start N) g4) as (g5 & E5 & L5); [lia|lia|].
  rewrite E5, bind_Some_l.
  destruct (init_constraint_runs (psi_start N) g5) as (g6 & E6 & L6);
    [lia|lia|].
  rewrite E6, bind_Some_l.
  destruct (init_constraint_runs (v_start N) g6) as (g7 & E7 & L7); [lia|lia|].
  rewrite E7, bind_Some_l.
  destruct (init_constraint_runs (cte_start N) g7) as (g8 & E8 & L8);
    [lia|lia|].
  rewrite E8, bind_Some_l.
  destruct (init_constraint_runs (epsi_start N) g8) as (g9 & E9 & L9);
    [lia|lia|].
  rewrite E9, bind_Some_l.
  destruct (loop_runs (constraint_step N coeffs vars) (N - 1) g9)
    as (g & E & L); [lia| |].
  { intros i t Hi Ht. apply constraint_step_runs; [lia|]. lia. }
  rewrite E. now eexists.
Qed.
End EnoughRoom.

Section NoRoom.
Context {T : Type} `{Scalar T}.
Variable N : Z.
Hypothesis HN : horizon N.
Variables coeffs vars : list T.

Lemma vset_outside (v : list T) (i : Z) (x : T) :
  Z.of_nat (length v) <= i -> vset v i x = None.
Proof. intros Hi. unfold vset. now rewrite decide_False by lia. Qed.

(** The last iteration of the loop over the actuators reads the last
    entry of [vars]. *)
Lemma cost_actuators_last (fg : list T) :
  Z.of_nat (length vars) < n_vars N ->
  cost_actuators N vars (0 + (N - 2)) fg = None.
Proof.
  intros Hv. unfold cost_actuators.
  destruct (vget vars (delta_start N +! (0 + (N - 2))));
    [rewrite bind_Some_l|apply bind_None_l].
  match goal with
  | |- mbind _ ?m = None => destruct m; [rewrite bind_Some_l|apply bind_None_l]
  end.
  layout N. unwrap. rewrite vget_None by lia. apply bind_None_l.
Qed.

Lemma fg_eval_short_vars (fg : list T) :
  Z.of_nat (length vars) < n_vars N -> fg_eval N coeffs fg vars = None.
Proof.
  intros Hv.
  assert (HB : 2 <= N /\ 8 * N <= 2 ^ 64) by exact HN.
  assert (HN1 : N -! 1 = N - 1) by now unwrap.
  unfold fg_eval.
  do 2 match goal with
    | |- mbind _ ?m = None =>
        destruct m; [rewrite bind_Some_l|apply bind_None_l]
    end.
  rewrite HN1.
  match goal with
  | |- mbind _ (for_range 0 (N - 1) (cost_actuators N vars) ?g) = None =>
      assert (E : for_range 0 (N - 1) (cost_actuators N vars) g = None)
  end.
  { unfold for_range.
    apply (for_loop_fails (fun _ => True) (cost_actuators N vars)
             (Z.to_nat (N - 1 - 0)) 0 (N - 2)); [tauto|lia|lia|lia| |exact I].
    intros t _. now apply cost_actuators_last. }
  rewrite E. apply bind_None_l.
Qed.

(** The last iteration of the constraint loop writes the last entry of
    [fg]. *)
Lemma constraint_step_last (fg : list T) :
  Z.of_nat (length fg) < 1 + n_constraints N ->
  constraint_step N coeffs vars (0 + (N - 2)) fg = None.
Proof.
  intros Hfg.
  assert (HB : 2 <= N /\ 8 * N <= 2 ^ 64) by exact HN.
  unfold constraint_step. cbv zeta.
  repeat match goal with
    | |- mbind _ (vget ?v ?j) = None =>
        destruct (vget v j); [rewrite bind_Some_l|apply bind_None_l]
    end.
  repeat match goal with
    | |- mbind _ (vset ?v ?j ?x) = None =>
        let E := fresh "E" in
        destruct (vset v j x) eqn:E;
          [apply vset_length in E; rewrite bind_Some_l|apply bind_None_l]
    end.
  apply vset_outside. layout N. unwrap. lia.
Qed.

Lemma fg_eval_short_fg (fg : list T) :
  Z.of_nat (length fg) < 1 + n_constraints N ->
  fg_eval N coeffs fg vars = None.
Proof.
  intros Hfg.
  assert (HB : 2 <= N /\ 8 * N <= 2 ^ 64) by exact HN.
  assert (HN1 : N -! 1 = N - 1) by now unwrap.
  unfold fg_eval.
  destruct (vset fg 0 (of_int 0)) as [g0|] eqn:E0;
    [apply vset_length in E0; rewrite bind_Some_l|apply bind_None_l].
  destruct (for_range 0 N (cost_reference N vars) g0) as [g1|] eqn:E1;
    [rewrite bind_Some_l|apply bind_None_l].
  apply (for_loop_keeps (fun t => length t = length fg)) in E1;
    [|intros j t t' Ht Hb; apply cost_reference_length in Hb; congruence
     |exact E0].
  destruct (for_range 0 (N -! 1) (cost_actuators N vars) g1) as [g2|] eqn:E2;
    [rewrite bind_Some_l|apply bind_None_l].
  apply (for_loop_keeps (fun t => length t = length fg)) in E2;
    [|intros j t t' Ht Hb; apply cost_actuators_length in Hb; congruence
     |exact E1].
  destruct (for_range 0 (N -! 2) (cost_gaps N vars) g2) as [g3|] eqn:E3;
    [rewrite bind_Some_l|apply bind_None_l].
  apply (for_loop_keeps (fun t => length t = length fg)) in E3;
    [|intros j t t' Ht Hb; apply cost_gaps_length in Hb; congruence
     |exact E2].
  destruct (init_constraint vars x_start g3) as [g4|] eqn:E4;
    [apply init_constraint_length in E4; rewrite bind_Some_l
    |apply bind_None_l].
  destruct (init_constraint vars (y_start N) g4) as [g5|] eqn:E5;
    [apply init_constraint_length in E5; rewrite bind_Some_l
    |apply bind_None_l].
  destruct (init_constraint vars (psi_start N) g5) as [g6|] eqn:E6;
    [apply init_constraint_length in E6; rewrite bind_Some_l
    |apply bind_None_l].
  destruct (init_constraint vars (v_start N) g6) as [g7|] eqn:E7;
    [apply init_constraint_length in E7; rewrite bind_Some_l
    |apply bind_None_l].
  destruct (init_constraint vars (cte_start N) g7) as [g8|] eqn:E8;
    [apply init_constraint_length in E8; rewrite bind_Some_l
    |apply bind_None_l].
  destruct (init_constraint vars (epsi_start N) g8) as [g9|] eqn:E9;
    [apply init_constraint_length in E9; rewrite bind_Some_l
    |apply bind_None_l].
  rewrite HN1. unfold for_range.
  apply (for_loop_fails (fun t => length t = length fg)
           (constraint_step N coeffs vars) (Z.to_nat (N - 1 - 0)) 0 (N - 2));
    [|lia|lia|lia| |congruence].
  - intros j t t' Ht Hb. apply constraint_step_length in Hb. congruence.
  - intros t Ht. apply constraint_step_last. lia.
Qed.
End NoRoom.

(** X12: the sizes an evaluation needs: it is defined exactly when [fg]
    has at least [1 + 6N] entries (the last iteration of the constraint
    loop writes [fg[6N]]), [vars] has at least [6N + 2(N-1)] entries (the
    last iteration of the loop over the actuators reads the last one) and
    there are at least four coefficients. *)
Theorem X12_formulator_sizes {T : Type} `{Scalar T} (N : Z)
    (coeffs fg vars : list T) :
  horizon N ->
  is_Some (fg_eval N coeffs fg vars) <->
  1 + 6 * N <= Z.of_nat (length fg) /\
  6 * N + 2 * (N - 1) <= Z.of_nat (length vars) /\
  (4 <= length coeffs)%nat.
Proof.
  intros HN.
  assert (HB : 2 <= N /\ 8 * N <= 2 ^ 64) by exact HN.
  assert (Env : n_vars N = 6 * N + 2 * (N - 1)) by (layout N; lia).
  assert (Enc : n_constraints N = 6 * N) by (now layout N).
  split.
  - intros [fg' E].
    destruct (Z_lt_le_dec (Z.of_nat (length fg)) (1 + 6 * N)) as [Hf|Hf].
    { rewrite (fg_eval_short_fg N HN) in E by lia. discriminate. }
    destruct (Z_lt_le_dec (Z.of_nat (length vars)) (6 * N + 2 * (N - 1)))
      as [Hv|Hv].
    { rewrite (fg_eval_short_vars N HN) in E by lia. discriminate. }
    destruct (le_lt_dec 4 (length coeffs)) as [Hc|Hc]; [tauto|].
    rewrite fg_eval_short in E by (assumption || lia). discriminate.
  - intros (Hf & Hv & Hc). apply (fg_eval_runs N HN); [lia|exact Hc|lia].
Qed.

Lemma X12_formulator_sizes_witness :
  horizon N_source /\
  is_Some (fg_eval N_source sample_coeffs sample_fg sample_vars) /\
  fg_eval N_source sample_coeffs short_fg sample_vars = None /\
  fg_eval N_source sample_coeffs sample_fg short_vars = None.
Proof.
  assert (HN : horizon N_source) by sample_side.
  split; [exact HN|]. split; [|split].
  - apply (X12_formulator_sizes N_source sample_coeffs sample_fg sample_vars HN).
    change (length sample_fg) with 91%nat.
    change (length sample_vars) with 118%nat.
    unfold N_source. cbn. lia.
  - destruct (fg_eval N_source sample_coeffs short_fg sample_vars) as [r|] eqn:E;
      [|reflexivity].
    exfalso.
    assert (Hs : is_Some (fg_eval N_source sample_coeffs short_fg sample_vars))
      by (rewrite E; eexists; reflexivity).
    apply (X12_formulator_sizes N_source sample_coeffs short_fg sample_vars HN)
      in Hs.
    change (length short_fg) with 90%nat in Hs.
    unfold N_source in Hs. lia.
  - destruct (fg_eval N_source sample_coeffs sample_fg short_vars) as [r|] eqn:E;
      [|reflexivity].
    exfalso.
    assert (Hs : is_Some (fg_eval N_source sample_coeffs sample_fg short_vars))
      by (rewrite E; eexists; reflexivity).
    apply (X12_formulator_sizes N_source sample_coeffs sample_fg short_vars HN)
      in Hs.
    change (length short_vars) with 117%nat in Hs.
    unfold N_source in Hs. lia.
Defined.

(** ** The waypoints of a solution that satisfies the constraints *)

Lemma lookup_flat_pairs {A B : Type} (f g : A -> B) (l : list A) (k : nat) :
  flat_map (fun i => [f i; g i]) l !! (2 * k)%nat = f <$> l !! k /\
  flat_map (fun i => [f i; g i]) l !! S (2 * k) = g <$> l !! k.
Proof.
  revert k. induction l as [|a l IH]; intros k.
  - split; reflexivity.
  - destruct k as [|k].
    + split; reflexivity.
    + replace (2 * S k)%nat with (S (S (2 * k))) by lia. apply IH.
Qed.

Lemma vat_result_spec {T : Type} `{Scalar T} (N : Z) (x : list T) (i : Z) :
  0 <= i < N - 1 ->
  vat (result_spec N x) (2 + 2 * i) = vat x (x_start + (i + 1)) /\
  vat (result_spec N x) (3 + 2 * i) = vat x (y_start N + (i + 1)).
Proof.
  intros Hi.
  destruct (lookup_flat_pairs (fun i => vat x (x_start + (i + 1)))
              (fun i => vat x (y_start N + (i + 1))) (seqZ 0 (N - 1))
              (Z.to_nat i)) as [Ex Ey].
  rewrite lookup_seqZ_lt in Ex, Ey by lia.
  rewrite Z2Nat.id in Ex, Ey by lia.
  unfold result_spec.
  split.
  - unfold vat at 1, vget. rewrite decide_True by lia.
    replace (Z.to_nat (2 + 2 * i)) with (S (S (2 * Z.to_nat i))) by lia.
    match goal with
    | |- default _ (([?a; ?b] ++ ?l) !! S (S ?n)) = _ =>
        change (([a; b] ++ l) !! S (S n)) with (l !! n)
    end.
    now rewrite Ex.
  - unfold vat at 1, vget. rewrite decide_True by lia.
    replace (Z.to_nat (3 + 2 * i)) with (S (S (S (2 * Z.to_nat i)))) by lia.
    match goal with
    | |- default _ (([?a; ?b] ++ ?l) !! S (S (S ?n))) = _ =>
        change (([a; b] ++ l) !! S (S (S n))) with (l !! S n)
    end.
    now rewrite Ey.
Qed.

(** X13: when the solver's solution has the size of the initial point and
    its constraint values lie within the constraint bounds [Solve] handed
    over, every returned waypoint is the model's prediction from the
    solution's previous timestep, and the first waypoint is the given
    state advanced by one step:
    [(x + v*cos(psi)*dt, y + v*sin(psi)*dt)], whatever the controls. *)
Theorem X13_waypoints_of_feasible_solution (N : Z) (uninit : R)
    (ipopt_solve : solver R) (state coeffs fg : list R) :
  horizon N -> (6 <= length state)%nat -> (4 <= length coeffs)%nat ->
  Z.of_nat (length fg) = 1 + n_constraints N ->
  (forall p, Solve_problem N uninit state = Some p ->
     length (sol_x (Solve_call N ipopt_solve coeffs p)) = length (nlp_vars p) /\
     exists g,
       fg_eval N coeffs fg (sol_x (Solve_call N ipopt_solve coeffs p)) = Some g /\
       feasible N p g) ->
  exists p run,
    Solve_problem N uninit state = Some p /\
    Solve N uninit ipopt_solve state coeffs = Some run /\
    (forall i, 0 <= i < N - 1 ->
       vat (result run) (2 + 2 * i)
         = model_x N (sol_x (Solve_call N ipopt_solve coeffs p)) i /\
       vat (result run) (3 + 2 * i)
         = model_y N (sol_x (Solve_call N ipopt_solve coeffs p)) i) /\
    vat (result run) 2
      = (vat state 0 + vat state 3 * cos (vat state 2) * dt_spec)%R /\
    vat (result run) 3
      = (vat state 1 + vat state 3 * sin (vat state 2) * dt_spec)%R.
Proof.
  intros HN Hst Hco Hfg Hsol.
  assert (HB : 2 <= N /\ 8 * N <= 2 ^ 64) by exact HN.
  destruct (Solve_problem_total N uninit state HN Hst) as (p & E & Hp).
  destruct (Hsol p E) as (Hlen & g & Eg & Hfeas).
  destruct Hp as ((Lv & _) & _ & _ & HC).
  set (x := sol_x (Solve_call N ipopt_solve coeffs p)) in *.
  assert (Lx : Z.of_nat (length x) = n_vars N) by (rewrite Hlen; exact Lv).
  destruct (fg_eval_total N coeffs fg x HN (conj Lx Hfg) Hco)
    as (g' & Eg' & _ & _ & (I0 & I1 & I2 & I3 & _) & Hres).
  rewrite Eg in Eg'. injection Eg' as <-.
  assert (Hpin : forall j, 0 <= j < n_constraints N ->
            vat g (1 + j) = pinned_or N state 0%R j).
  { intros j Hj. destruct (HC j Hj) as [El Eu].
    destruct (Hfeas j Hj) as [H1 H2]. rewrite El in H1. rewrite Eu in H2.
    apply Rle_antisym; assumption. }
  assert (Hmodel : forall i, 0 <= i < N - 1 ->
            vat x (x_start + (i + 1)) = model_x N x i /\
            vat x (y_start N + (i + 1)) = model_y N x i).
  { intros i Hi. destruct (Hres i Hi) as (Rx & Ry & _).
    rewrite res_x_model in Rx. rewrite res_y_model in Ry.
    rewrite (state_x_at x) in Rx. rewrite (state_y_at N x) in Ry.
    assert (Zx : vat g (2 + x_start + i) = 0%R /\
                 vat g (2 + y_start N + i) = 0%R).
    { unfold pinned_or, state_component in Hpin. layout N. split.
      - replace (2 + 0 + i) with (1 + (1 + i)) by lia.
        rewrite Hpin by lia. repeat case_decide; try lia. reflexivity.
      - replace (2 + N + i) with (1 + (1 + N + i)) by lia.
        rewrite Hpin by lia. repeat case_decide; try lia. reflexivity. }
    destruct Zx as [Zx Zy]. rewrite Zx in Rx. rewrite Zy in Ry.
    split; lra. }
  assert (Hinit : vat x x_start = vat state 0 /\
                  vat x (y_start N) = vat state 1 /\
                  vat x (psi_start N) = vat state 2 /\
                  vat x (v_start N) = vat state 3).
  { rewrite <- I0, <- I1, <- I2, <- I3.
    unfold pinned_or, state_component in Hpin. layout N.
    repeat split; rewrite Hpin by lia; repeat case_decide; try lia;
      reflexivity. }
  exists p. eexists. split; [exact E|]. split.
  { apply (Solve_total N uninit ipopt_solve state coeffs p HN E). exact Lx. }
  cbn [result]. fold x. split; [|split].
  - intros i Hi. destruct (vat_result_spec N x i Hi) as [-> ->].
    now apply Hmodel.
  - destruct (vat_result_spec N x 0) as [Q _]; [lia|].
    change (2 + 2 * 0) with 2 in Q. rewrite Q.
    destruct (Hmodel 0) as [-> _]; [lia|].
    destruct Hinit as (J0 & _ & J2 & J3).
    unfold model_x. rewrite (state_x_at x), (state_v_at N x), (state_psi_at N x).
    rewrite !Z.add_0_r. now rewrite J0, J2, J3.
  - destruct (vat_result_spec N x 0) as [_ Q]; [lia|].
    change (3 + 2 * 0) with 3 in Q. rewrite Q.
    destruct (Hmodel 0) as [_ ->]; [lia|].
    destruct Hinit as (_ & J1 & J2 & J3).
    unfold model_y. rewrite (state_y_at N x), (state_v_at N x), (state_psi_at N x).
    rewrite !Z.add_0_r. now rewrite J1, J2, J3.
Qed.

(** Conversely, a candidate whose initial state is the given one and
    whose residuals are all zero satisfies the constraints. *)
Lemma feasible_intro (N : Z) (state : list R) (p : nlp R) (g : list R) :
  horizon N -> constraint_bounds_expected N state p ->
  (forall c, 0 <= c < 6 -> vat g (1 + c * N) = vat state c) ->
  residuals_zero N g -> feasible N p g.
Proof.
  intros HN HC Hinit Hz j Hj.
  assert (HB : 2 <= N /\ 8 * N <= 2 ^ 64) by exact HN.
  destruct (HC j Hj) as [-> ->]. clear HC.
  assert (Hval : vat g (1 + j) = pinned_or N state 0%R j);
    [|rewrite Hval; split; apply Rle_refl].
  unfold pinned_or, state_component. unfold residuals_zero in Hz.
  layout N.
  assert (Hc : exists c r, 0 <= c < 6 /\ 0 <= r < N /\ j = c * N + r).
  { exists (j / N), (j mod N).
    pose proof (Z.div_mod j N ltac:(lia)).
    pose proof (Z.mod_pos_bound j N ltac:(lia)).
    split; [|split; [assumption|lia]].
    split; [apply Z.div_pos; lia|apply Z.div_lt_upper_bound; lia]. }
  destruct Hc as (c & r & Hc & Hr & ->).
  destruct (decide (r = 0)) as [->|Hr0].
  - rewrite Z.add_0_r, (Hinit c Hc).
    destruct (six_cases c Hc) as [ -> | [ -> | [ -> | [ -> | [ -> | -> ] ] ] ] ];
      repeat case_decide; try lia; reflexivity.
  - destruct (Hz (r - 1)) as (Z0 & Z1 & Z2 & Z3 & Z4 & Z5); [lia|].
    destruct (six_cases c Hc) as [ -> | [ -> | [ -> | [ -> | [ -> | -> ] ] ] ] ];
      repeat case_decide; try lia.
    + replace (1 + (0 * N + r)) with (2 + 0 + (r - 1)) by lia. exact Z0.
    + replace (1 + (1 * N + r)) with (2 + N + (r - 1)) by lia. exact Z1.
    + replace (1 + (2 * N + r)) with (2 + 2 * N + (r - 1)) by lia. exact Z2.
    + replace (1 + (3 * N + r)) with (2 + 3 * N + (r - 1)) by lia. exact Z3.
    + replace (1 + (4 * N + r)) with (2 + 4 * N + (r - 1)) by lia. exact Z4.
    + replace (1 + (5 * N + r)) with (2 + 5 * N + (r - 1)) by lia. exact Z5.
Qed.

Lemma vat_rest_state (k : Z) : vat rest_state k = 0%R.
Proof.
  unfold vat, vget, rest_state. destruct (decide (0 <= k)); [|reflexivity].
  destruct (Z.to_nat k) as [|[|[|[|[|[|n]]]]]]; reflexivity.
Qed.

(** At rest at the origin on the path [y = 0], the initial point itself
    satisfies the constraints. *)
Lemma rest_point_feasible (p : nlp R) :
  Solve_problem N_source 0%R rest_state = Some p ->
  exists g,
    fg_eval N_source zero_coeffs sample_fg (nlp_vars p) = Some g /\
    feasible N_source p g.
Proof.
  intros E.
  assert (HN : horizon N_source) by sample_side.
  destruct (Solve_problem_total N_source 0%R rest_state HN)
    as (q & Eq & (Lv & _) & HI & _ & HC); [sample_side|].
  rewrite E in Eq. injection Eq as <-.
  assert (Ep : nlp_vars p = rest_vars).
  { apply vat_ext.
    - apply Nat2Z.inj. rewrite Lv. reflexivity.
    - intros j Hj. rewrite Lv in Hj. rewrite (HI j Hj).
      unfold rest_vars. rewrite vat_vfill_zero. unfold pinned_or.
      destruct (state_component N_source j);
        [apply vat_rest_state|apply zero_real]. }
  rewrite Ep.
  destruct (fg_eval_total N_source zero_coeffs sample_fg rest_vars HN)
    as (g & Eg & Xg); [sample_side..|].
  exists g. split; [exact Eg|].
  apply (feasible_intro N_source rest_state p g HN HC).
  - intros c Hc. destruct Xg as (_ & _ & (I0 & I1 & I2 & I3 & I4 & I5) & _).
    rewrite vat_rest_state.
    destruct (six_cases c Hc) as [ -> | [ -> | [ -> | [ -> | [ -> | -> ] ] ] ] ].
    + rewrite <- (vat_vfill_zero (n_vars N_source) x_start). exact I0.
    + rewrite <- (vat_vfill_zero (n_vars N_source) (y_start N_source)).
      exact I1.
    + rewrite <- (vat_vfill_zero (n_vars N_source) (psi_start N_source)).
      exact I2.
    + rewrite <- (vat_vfill_zero (n_vars N_source) (v_start N_source)).
      exact I3.
    + rewrite <- (vat_vfill_zero (n_vars N_source) (cte_start N_source)).
      exact I4.
    + rewrite <- (vat_vfill_zero (n_vars N_source) (epsi_start N_source)).
      exact I5.
  - now apply rest_obeys_dynamics.
Qed.

Lemma X13_waypoints_of_feasible_solution_witness :
  horizon N_source /\ (6 <= length rest_state)%nat /\
  (4 <= length zero_coeffs)%nat /\
  Z.of_nat (length sample_fg) = 1 + n_constraints N_source /\
  (forall p, Solve_problem N_source 0%R rest_state = Some p ->
     exists g,
       fg_eval N_source zero_coeffs sample_fg
         (sol_x (Solve_call N_source (stub_solver success 0%R) zero_coeffs p))
         = Some g /\
       feasible N_source p g) /\
  exists run,
    Solve N_source 0%R (stub_solver success 0%R) rest_state zero_coeffs
      = Some run /\
    vat (result run) 2
      = (vat rest_state 0 + vat rest_state 3 * cos (vat rest_state 2) * dt_spec)%R /\
    vat (result run) 3
      = (vat rest_state 1 + vat rest_state 3 * sin (vat rest_state 2) * dt_spec)%R.
Proof.
  split; [sample_side|]. split; [sample_side|]. split; [sample_side|].
  split; [reflexivity|]. split; [exact rest_point_feasible|].
  destruct (X13_waypoints_of_feasible_solution N_source 0%R
              (stub_solver success 0%R) rest_state zero_coeffs sample_fg)
    as (p & run & _ & Er & _ & W2 & W3);
    [sample_side|sample_side|sample_side|reflexivity| |].
  - intros p E. split; [reflexivity|]. now apply rest_point_feasible.
  - exists run. split; [exact Er|]. split; [exact W2|exact W3].
Defined.

(** ** The feasible set *)

Lemma feasible_elim (N : Z) (state : list R) (p : nlp R) (g : list R) :
  horizon N -> constraint_bounds_expected N state p -> feasible N p g ->
  (forall c, 0 <= c < 6 -> vat g (1 + c * N) = vat state c) /\
  residuals_zero N g.
Proof.
  intros HN HC Hfeas.
  assert (HB : 2 <= N /\ 8 * N <= 2 ^ 64) by exact HN.
  assert (Hpin : forall j, 0 <= j < n_constraints N ->
            vat g (1 + j) = pinned_or N state 0%R j).
  { intros j Hj. destruct (HC j Hj) as [El Eu].
    destruct (Hfeas j Hj) as [H1 H2]. rewrite El in H1. rewrite Eu in H2.
    apply Rle_antisym; assumption. }
  clear HC Hfeas. unfold pinned_or, state_component in Hpin.
  unfold residuals_zero. layout N. split.
  - intros c Hc. rewrite Hpin by nia.
    destruct (six_cases c Hc) as [ -> | [ -> | [ -> | [ -> | [ -> | -> ] ] ] ] ];
      repeat case_decide; try lia; reflexivity.
  - intros i Hi.
    replace (2 + 0 + i) with (1 + (1 + i)) by lia.
    replace (2 + N + i) with (1 + (N + 1 + i)) by lia.
    replace (2 + 2 * N + i) with (1 + (2 * N + 1 + i)) by lia.
    replace (2 + 3 * N + i) with (1 + (3 * N + 1 + i)) by lia.
    replace (2 + 4 * N + i) with (1 + (4 * N + 1 + i)) by lia.
    replace (2 + 5 * N + i) with (1 + (5 * N + 1 + i)) by lia.
    repeat split; rewrite Hpin by lia; repeat case_decide; try lia;
      reflexivity.
Qed.

Lemma residuals_zero_iff (N : Z) (coeffs vars g : list R) :
  fg_expected N coeffs vars g ->
  residuals_zero N g <-> obeys_model N coeffs vars.
Proof.
  intros (_ & _ & _ & Hres). split; intros Hz i Hi.
  - destruct (Hres i Hi) as (R0 & R1 & R2 & R3 & R4 & R5).
    destruct (Hz i Hi) as (Z0 & Z1 & Z2 & Z3 & Z4 & Z5).
    rewrite Z0, res_x_model in R0. rewrite Z1, res_y_model in R1.
    rewrite Z2, res_psi_model in R2. rewrite Z3, res_v_model in R3.
    rewrite Z4, res_cte_model in R4. rewrite Z5, res_epsi_model in R5.
    repeat split; apply Rminus_diag_uniq; symmetry; assumption.
  - destruct (Hres i Hi) as (R0 & R1 & R2 & R3 & R4 & R5).
    destruct (Hz i Hi) as (Z0 & Z1 & Z2 & Z3 & Z4 & Z5).
    rewrite R0, R1, R2, R3, R4, R5.
    rewrite res_x_model, res_y_model, res_psi_model, res_v_model,
      res_cte_model, res_epsi_model.
    repeat split; apply Rminus_diag_eq; assumption.
Qed.

(** X14: the constraints [Solve] hands to the solver describe the model's
    trajectories from the given state: a candidate's constraint values,
    as the formulator computes them, lie within the constraint bounds
    exactly when its state at timestep 0 is the given state and its state
    at every later timestep is the one the model predicts from the
    timestep before. *)
Theorem X14_feasible_set (N : Z) (uninit : R)
    (state coeffs fg vars : list R) :
  horizon N -> (6 <= length state)%nat -> (4 <= length coeffs)%nat ->
  sized N fg vars ->
  exists p g,
    Solve_problem N uninit state = Some p /\
    fg_eval N coeffs fg vars = Some g /\
    (feasible N p g <-> starts_at N state vars /\ obeys_model N coeffs vars).
Proof.
  intros HN Hst Hco Hsz.
  destruct (Solve_problem_total N uninit state HN Hst)
    as (p & E & _ & _ & _ & HC).
  destruct (fg_eval_total N coeffs fg vars HN Hsz Hco) as (g & Eg & Xg).
  destruct (fg_initial_block N coeffs fg vars HN Hsz Hco)
    as (g' & Eg' & Hblock).
  rewrite Eg in Eg'. injection Eg' as <-.
  exists p, g. split; [exact E|]. split; [exact Eg|]. split.
  - intros Hfeas.
    destruct (feasible_elim N state p g HN HC Hfeas) as [Hinit Hz]. split.
    + intros c Hc. rewrite <- (Hblock c Hc). now apply Hinit.
    + now apply (residuals_zero_iff N coeffs vars g Xg).
  - intros [Hs Hm]. apply (feasible_intro N state p g HN HC).
    + intros c Hc. rewrite (Hblock c Hc). now apply Hs.
    + now apply (residuals_zero_iff N coeffs vars g Xg).
Qed.

Lemma X14_feasible_set_witness :
  horizon N_source /\ (6 <= length rest_state)%nat /\
  (4 <= length zero_coeffs)%nat /\ sized N_source sample_fg rest_vars /\
  exists p g,
    Solve_problem N_source 0%R rest_state = Some p /\
    fg_eval N_source zero_coeffs sample_fg rest_vars = Some g /\
    (feasible N_source p g <->
     starts_at N_source rest_state rest_vars /\
     obeys_model N_source zero_coeffs rest_vars).
Proof.
  split; [sample_side|]. split; [sample_side|]. split; [sample_side|].
  split; [sample_side|].
  apply (X14_feasible_set N_source 0%R rest_state zero_coeffs sample_fg
           rest_vars); sample_side.
Defined.
